(** * progress_bar.py: a shallow embedding and its verified properties

    The development models [src/progress_bar.py]: the class [ProgressBar]
    (constructor, [percentage], [_generate_bar], [_get_spinner], [display],
    [update]) over explicit Python values.

    - Python [int] is [Z].
    - Python [str] is a list of Unicode code points, so that indexing
      [spinner_chars[i]] selects one glyph.
    - Python [float] is IEEE-754 binary64, modelled in [F64] below.
    - Exceptions are values of [exn]; a call that can raise returns a
      [result].  Methods that mutate [self] or write to the sink run in the
      state-and-exception monad [M]: a raised exception keeps the mutations
      made before it, as in Python. *)

From Stdlib Require Import ZArith List String Ascii Bool Lia.
From Stdlib Require Import DecimalString.
From Stdlib Require SpecFloat.
Import ListNotations.
Local Open Scope Z_scope.

(** ** Python values *)

Module Py.

Inductive exn : Type :=
| ValueError (msg : string)
| IndexError
| ZeroDivisionError
| OverflowError.

Inductive result (A : Type) : Type :=
| Ok (a : A)
| Raise (e : exn).
Arguments Ok {A} a.
Arguments Raise {A} e.

Definition rbind {A B} (r : result A) (k : A -> result B) : result B :=
  match r with
  | Ok a => k a
  | Raise e => Raise e
  end.

(** A [str] is a sequence of code points. *)
Definition codepoint := Z.
Definition str := list codepoint.

(** An ASCII literal of the source, as a [str]. *)
Definition lit (s : string) : str :=
  map (fun a => Z.of_N (N_of_ascii a)) (list_ascii_of_string s).

(** [s[i]]: negative indices count from the end; out of range raises. *)
Definition str_index (s : str) (i : Z) : result str :=
  let n := Z.of_nat (List.length s) in
  let j := if i <? 0 then i + n else i in
  if (0 <=? j) && (j <? n) then
    match nth_error s (Z.to_nat j) with
    | Some c => Ok [c]
    | None => Raise IndexError
    end
  else Raise IndexError.

(** [s * n]: the empty string when [n <= 0]. *)
Definition str_repeat (s : str) (n : Z) : str :=
  List.concat (repeat s (Z.to_nat n)).

(** [a % b] on integers: the remainder has the sign of [b]. *)
Definition int_mod (a b : Z) : result Z :=
  if b =? 0 then Raise ZeroDivisionError else Ok (a mod b).

(** [str(n)] for [n >= 0]. *)
Definition decimal (n : Z) : str :=
  lit (NilZero.string_of_uint (N.to_uint (Z.to_N n))).

End Py.
Import Py.

Notation "'let?' x ':=' e 'in' k" := (rbind e (fun x => k))
  (at level 10, x name, e at level 100, k at level 200).

(** ** IEEE-754 binary64

    Every finite double is an integer multiple of [2^-1074] whose
    significand has at most 53 bits.  A finite value is kept as its sign and
    its magnitude [k] counted in units of [2^-1074]; [k = 0] is a signed
    zero.  Operations compute the exact rational result [a / b] (in units)
    and round it to nearest, ties to even. *)

Module F64.

Inductive float : Type :=
| Finite (neg : bool) (k : Z)
| Inf (neg : bool)
| NaN.

(** [1.0] in units of [2^-1074]. *)
Definition one_u : Z := 2 ^ 1074.
(** [2^1024] in units: the first magnitude that is no longer finite. *)
Definition overflow_u : Z := 2 ^ 2098.

(** [a / b] rounded to the nearest integer, ties to even
    ([0 <= a], [0 < b]). *)
Definition rne (a b : Z) : Z :=
  let q := a / b in
  let r := a mod b in
  if 2 * r <? b then q
  else if b <? 2 * r then q + 1
  else if Z.even q then q else q + 1.

(** Exponent of the unit in the last place of [a / b], relative to
    [2^-1074]: zero for subnormals and the first binade. *)
Definition ulp_exp (a b : Z) : Z := Z.max 0 (Z.log2 (a / b) - 52).

(** The magnitude [a / b] rounded to a 53-bit significand. *)
Definition round_mag (a b : Z) : Z :=
  let j := ulp_exp a b in
  rne a (b * 2 ^ j) * 2 ^ j.

(** Rounding with overflow to infinity, as the hardware operations do. *)
Definition round (neg : bool) (a b : Z) : float :=
  let k := round_mag a b in
  if k <? overflow_u then Finite neg k else Inf neg.

(** [x * y] on floats. *)
Definition fmul (x y : float) : float :=
  match x, y with
  | NaN, _ | _, NaN => NaN
  | Inf s1, Inf s2 => Inf (xorb s1 s2)
  | Inf s1, Finite s2 k | Finite s2 k, Inf s1 =>
      if k =? 0 then NaN else Inf (xorb s1 s2)
  | Finite s1 k1, Finite s2 k2 => round (xorb s1 s2) (k1 * k2) one_u
  end.

(** [x / y] on floats: Python raises on a zero divisor. *)
Definition fdiv (x y : float) : result float :=
  match x, y with
  | _, Finite _ 0 => Raise ZeroDivisionError
  | NaN, _ | _, NaN => Ok NaN
  | Inf _, Inf _ => Ok NaN
  | Inf s1, Finite s2 _ => Ok (Inf (xorb s1 s2))
  | Finite s1 _, Inf s2 => Ok (Finite (xorb s1 s2) 0)
  | Finite s1 k1, Finite s2 k2 => Ok (round (xorb s1 s2) (k1 * one_u) k2)
  end.

(** [a / b] on integers: the correctly rounded quotient; a zero dividend
    gives a zero signed by the divisor. *)
Definition true_divide (a b : Z) : result float :=
  if b =? 0 then Raise ZeroDivisionError
  else
    let neg := xorb (a <? 0) (b <? 0) in
    let k := round_mag (Z.abs a * one_u) (Z.abs b) in
    if k <? overflow_u then Ok (Finite neg k) else Raise OverflowError.

(** [float(n)], the conversion applied to an [int] operand of a float
    operation. *)
Definition of_int (n : Z) : result float :=
  let k := round_mag (Z.abs n * one_u) 1 in
  if k <? overflow_u then Ok (Finite (n <? 0) k) else Raise OverflowError.

(** [int(x)]: truncation toward zero. *)
Definition to_int (x : float) : result Z :=
  match x with
  | Finite neg k => Ok (if neg then - (k / one_u) else k / one_u)
  | Inf _ => Raise OverflowError
  | NaN => Raise (ValueError "cannot convert float NaN to integer")
  end.

(** The mathematical floor of a finite value. *)
Definition floor (x : float) : option Z :=
  match x with
  | Finite false k => Some (k / one_u)
  | Finite true k => Some (- ((k + one_u - 1) / one_u))
  | _ => None
  end.

(** [x >= n] for a float and an [int]: Python compares the exact values. *)
Definition ge_int (x : float) (n : Z) : bool :=
  match x with
  | Finite neg k => n * one_u <=? (if neg then - k else k)
  | Inf neg => negb neg
  | NaN => false
  end.

Definition sign_str (neg : bool) : str := if neg then lit "-" else [].

(** [f'{x:.2f}']: the exact value rounded to two decimals, ties to even;
    the sign is kept when the digits are all zero. *)
Definition format_2f (x : float) : str :=
  match x with
  | NaN => lit "nan"
  | Inf neg => sign_str neg ++ lit "inf"
  | Finite neg k =>
      let n := rne (k * 100) one_u in
      sign_str neg ++ decimal (n / 100) ++ lit "."
        ++ decimal (n / 10 mod 10) ++ decimal (n mod 10)
  end.

Definition mul_int (x : float) (n : Z) : result float :=
  let? y := of_int n in Ok (fmul x y).

Definition div_int (x : float) (n : Z) : result float :=
  let? y := of_int n in fdiv x y.

(** The magnitudes that are doubles: a significand below [2^53] times a
    power of two. *)
Definition representable (k : Z) : Prop :=
  exists m j, 0 <= m < 2 ^ 53 /\ 0 <= j /\ k = m * 2 ^ j.

(** The same value in the Standard Library's specification format, to
    compare the operations above with [SpecFloat]'s. *)
Definition to_spec (x : float) : SpecFloat.spec_float :=
  match x with
  | NaN => SpecFloat.S754_nan
  | Inf neg => SpecFloat.S754_infinity neg
  | Finite neg k =>
      if k =? 0 then SpecFloat.S754_zero neg
      else
        let j := ulp_exp k 1 in
        SpecFloat.S754_finite neg (Z.to_pos (k / 2 ^ j)) (j - 1074)
  end.

End F64.
Import F64.


(** ** The class [ProgressBar] *)

(** The fields set by the constructor.  [output] is a shared stream object:
    it is not a field here but the second component of [world] below. *)
Record ProgressBar : Type := mkProgressBar {
  total : Z;
  bar_length : Z;
  full_char : str;
  empty_char : str;
  spinner_chars : str;
  color_full : str;
  color_empty : str;
  color_spinner : str;
  color_status : str;
  color_complete : str;
  reset : str;
  clear_line : str;
  current_value : Z;
  spinner_index : Z
}.

(** The keyword arguments of the constructor. *)
Record kwargs : Type := mkKwargs {
  kw_bar_length : Z;
  kw_full_char : str;
  kw_empty_char : str;
  kw_spinner_chars : str;
  kw_color_full : str;
  kw_color_empty : str;
  kw_color_spinner : str;
  kw_color_status : str;
  kw_color_complete : str;
  kw_reset : str;
  kw_clear_line : str
}.

Definition ESC : codepoint := 27.

(** The default values of the signature of [__init__]. *)
Definition defaults : kwargs := {|
  kw_bar_length := 30;
  kw_full_char := [0x25b0];
  kw_empty_char := [0x25b1];
  kw_spinner_chars :=
    [0x280b; 0x2819; 0x2839; 0x2838; 0x283c;
     0x2834; 0x2826; 0x2827; 0x2807; 0x280f];
  kw_color_full := ESC :: lit "[1;38;2;224;0;90m";
  kw_color_empty := ESC :: lit "[1;38;2;54;65;82m";
  kw_color_spinner := ESC :: lit "[1;38;2;255;215;0m";
  kw_color_status := ESC :: lit "[1;38;2;104;118;244m";
  kw_color_complete := ESC :: lit "[1;38;2;12;159;109m";
  kw_reset := ESC :: lit "[0m";
  kw_clear_line := ESC :: lit "[K"
|}.

Definition set_current_value (self : ProgressBar) (v : Z) : ProgressBar :=
  mkProgressBar (total self) (bar_length self) (full_char self)
    (empty_char self) (spinner_chars self) (color_full self)
    (color_empty self) (color_spinner self) (color_status self)
    (color_complete self) (reset self) (clear_line self)
    v (spinner_index self).

Definition set_spinner_index (self : ProgressBar) (i : Z) : ProgressBar :=
  mkProgressBar (total self) (bar_length self) (full_char self)
    (empty_char self) (spinner_chars self) (color_full self)
    (color_empty self) (color_spinner self) (color_status self)
    (color_complete self) (reset self) (clear_line self)
    (current_value self) i.

(** What the sink has received. *)
Inductive event : Type :=
| Write (s : str)
| Flush.

(** The object and the stream it writes to; events are kept oldest first. *)
Definition world : Type := ProgressBar * list event.

(** Mutating methods: state and exceptions. *)
Definition M (A : Type) : Type := world -> result A * world.

Definition ret {A} (a : A) : M A := fun w => (Ok a, w).

Definition bind {A B} (m : M A) (k : A -> M B) : M B :=
  fun w =>
    match m w with
    | (Ok a, w') => k a w'
    | (Raise e, w') => (Raise e, w')
    end.

Notation "x <- m ;; k" := (bind m (fun x => k))
  (at level 61, m at next level, right associativity).

Definition get_self : M ProgressBar := fun w => (Ok (fst w), w).

Definition put_self (self : ProgressBar) : M unit :=
  fun w => (Ok tt, (self, snd w)).

(** Read-only code that may raise. *)
Definition lift {A} (r : ProgressBar -> result A) : M A :=
  fun w => (r (fst w), w).

Definition output_write (s : str) : M unit :=
  fun w => (Ok tt, (fst w, snd w ++ [Write s])).

Definition output_flush : M unit :=
  fun w => (Ok tt, (fst w, snd w ++ [Flush])).

(** [_validate_total], on the argument stored in [self.total]. *)
Definition _validate_total (total : option Z) : result Z :=
  match total with
  | None =>
      Raise (ValueError "Total steps must be specified and greater than 0.")
  | Some t =>
      if t <=? 0
      then Raise (ValueError "Total steps must be specified and greater than 0.")
      else Ok t
  end.

(** [__init__]: the object exists only when validation passed. *)
Definition __init__ (total : option Z) (kw : kwargs) : result ProgressBar :=
  let? t := _validate_total total in
  Ok {| total := t;
        bar_length := kw_bar_length kw;
        full_char := kw_full_char kw;
        empty_char := kw_empty_char kw;
        spinner_chars := kw_spinner_chars kw;
        color_full := kw_color_full kw;
        color_empty := kw_color_empty kw;
        color_spinner := kw_color_spinner kw;
        color_status := kw_color_status kw;
        color_complete := kw_color_complete kw;
        reset := kw_reset kw;
        clear_line := kw_clear_line kw;
        current_value := 0;
        spinner_index := 0 |}.

(** The property [percentage]: [(current_value / total) * 100]. *)
Definition percentage (self : ProgressBar) : result float :=
  let? q := true_divide (current_value self) (total self) in
  mul_int q 100.

(** The local [filled_length] of [_generate_bar]:
    [int(self.percentage / 100 * self.bar_length)]; [filled_float] is the
    float handed to [int]. *)
Definition filled_float (self : ProgressBar) : result float :=
  let? p := percentage self in
  let? d := div_int p 100 in
  mul_int d (bar_length self).

Definition filled_length (self : ProgressBar) : result Z :=
  let? m := filled_float self in
  to_int m.

Definition _generate_bar (self : ProgressBar) : result str :=
  let? n := filled_length self in
  Ok (color_full self ++ str_repeat (full_char self) n ++ reset self
      ++ color_empty self
      ++ str_repeat (empty_char self) (bar_length self - n) ++ reset self).

Definition _get_spinner : M str :=
  self <- get_self ;;
  char <- lift (fun _ => str_index (spinner_chars self) (spinner_index self)) ;;
  i <- lift (fun _ => int_mod (spinner_index self + 1)
                        (Z.of_nat (List.length (spinner_chars self)))) ;;
  _ <- put_self (set_spinner_index self i) ;;
  ret (color_spinner self ++ char ++ reset self).

(** The locals [status_color] and [status_text] of [display]. *)
Definition status_color (self : ProgressBar) : result str :=
  let? p := percentage self in
  Ok (if ge_int p 100 then color_complete self else color_status self).

Definition status_text (self : ProgressBar) : result str :=
  let? p := percentage self in
  if ge_int p 100 then Ok (lit "Completed!")
  else let? p' := percentage self in Ok (format_2f p' ++ lit "%").

Definition CR : codepoint := 13.

Definition display : M unit :=
  color <- lift status_color ;;
  text <- lift status_text ;;
  self <- get_self ;;
  spinner <- _get_spinner ;;
  self' <- get_self ;;
  bar <- lift _generate_bar ;;
  _ <- output_write
         (CR :: clear_line self ++ spinner ++ lit " " ++ bar ++ lit " "
             ++ color ++ text ++ reset self') ;;
  output_flush.

Definition update (value : Z) : M unit :=
  self <- get_self ;;
  put_self (set_current_value self
              (Z.min (current_value self + value) (total self))).

(** ** Callers

    A caller is any sequence of method calls on one object; an exception is
    caught by the caller and the object lives on. *)
Inductive call : Type :=
| CallUpdate (value : Z)
| CallDisplay
| CallGetSpinner.

Definition run_call (c : call) (w : world) : world :=
  match c with
  | CallUpdate v => snd (update v w)
  | CallDisplay => snd (display w)
  | CallGetSpinner => snd (_get_spinner w)
  end.

Definition run_calls (cs : list call) (w : world) : world :=
  fold_left (fun w c => run_call c w) cs w.

(** Amounts of a sequence of calls are all non-negative. *)
Definition nonneg_call (c : call) : Prop :=
  match c with
  | CallUpdate v => 0 <= v
  | _ => True
  end.


(** ** Magnitudes computed by [percentage] and [_generate_bar]

    For [0 <= c <= t] the floats of the source are non-negative and finite;
    these are their magnitudes in units of [2^-1074]. *)

(** [c / t]. *)
Definition ratio_u (c t : Z) : Z := round_mag (c * one_u) t.
(** [(c / t) * 100]. *)
Definition percent_u (c t : Z) : Z :=
  round_mag (ratio_u c t * (100 * one_u)) one_u.
(** [p / 100]. *)
Definition fraction_u (p : Z) : Z := round_mag (p * one_u) (100 * one_u).

(** ** Notions used by the statements *)

(** [b] is [a] up to the two mutable fields. *)
Definition same_config (a b : ProgressBar) : Prop :=
  b = set_spinner_index (set_current_value a (current_value b))
        (spinner_index b).

(** [len(self.spinner_chars)]. *)
Definition spinner_len (self : ProgressBar) : Z :=
  Z.of_nat (List.length (spinner_chars self)).

(** What a caller can rely on after any sequence of calls. *)
Record invariant (self0 self : ProgressBar) : Prop := mkInvariant {
  inv_config : same_config self0 self;
  inv_current : current_value self <= total self0;
  inv_spinner :
    spinner_index self = 0 \/ 0 <= spinner_index self < spinner_len self0
}.

(** The amounts passed to [update] by a sequence of calls, in order. *)
Fixpoint amounts (cs : list call) : list Z :=
  match cs with
  | [] => []
  | CallUpdate v :: cs' => v :: amounts cs'
  | _ :: cs' => amounts cs'
  end.

(** Their sum. *)
Definition sum (l : list Z) : Z := fold_right Z.add 0 l.


(** Keyword arguments given explicitly at a call of the constructor. *)
Definition with_spinner_chars (kw : kwargs) (s : str) : kwargs :=
  mkKwargs (kw_bar_length kw) (kw_full_char kw) (kw_empty_char kw) s
    (kw_color_full kw) (kw_color_empty kw) (kw_color_spinner kw)
    (kw_color_status kw) (kw_color_complete kw) (kw_reset kw)
    (kw_clear_line kw).

Definition with_bar_length (kw : kwargs) (n : Z) : kwargs :=
  mkKwargs n (kw_full_char kw) (kw_empty_char kw) (kw_spinner_chars kw)
    (kw_color_full kw) (kw_color_empty kw) (kw_color_spinner kw)
    (kw_color_status kw) (kw_color_complete kw) (kw_reset kw)
    (kw_clear_line kw).

(** Sample operands for the comparison with [SpecFloat]. *)
Definition float_of (r : result float) : float :=
  match r with
  | Ok x => x
  | Raise _ => NaN
  end.

Definition sample_pairs : list (float * float) :=
  let f1 := Finite false one_u in
  let f2 := Finite false (2 * one_u) in
  let f30 := Finite false (30 * one_u) in
  let f100 := Finite false (100 * one_u) in
  let third := float_of (true_divide 1 3) in
  let pct := fmul third f100 in
  let half := Finite false (2 ^ 1073) in
  let largest := Finite false ((2 ^ 53 - 1) * 2 ^ 2045) in
  [ (third, f100); (pct, f100); (float_of (fdiv pct f100), f30);
    (f1, f30); (f30, f100); (Finite true (2 ^ 1072), f100);
    (Finite false 1, half); (Finite false 3, half); (Finite false 1, f30);
    (largest, f2); (largest, f1); (f1, largest); (largest, half);
    (Finite false 0, f100); (Finite true 0, f30); (f100, Finite false 0);
    (f100, Inf false); (Inf true, f100); (Inf false, Finite false 0);
    (Inf false, Inf true); (NaN, f1); (f1, NaN) ].

(** ** The driver: [simulate_task] and [main]

    [time.sleep] is library code: what it returns for a duration is the
    parameter [time_sleep] of the definitions below; it touches neither the
    object nor the sink. *)

(** [len(range(start, stop, step))]; a zero step raises. *)
Definition range_length (start stop step : Z) : result nat :=
  if step =? 0 then Raise (ValueError "range() arg 3 must not be zero")
  else if 0 <? step then
    Ok (if start <? stop then Z.to_nat ((stop - start - 1) / step + 1)
        else 0%nat)
  else
    Ok (if stop <? start then Z.to_nat ((start - stop - 1) / (- step) + 1)
        else 0%nat).

(** The body of the [for] loop, once per element of the range. *)
Fixpoint simulate_loop (time_sleep : float -> result unit)
    (step_duration : float) (step_increment : Z) (n : nat) : M unit :=
  match n with
  | O => ret tt
  | S n' =>
      _ <- lift (fun _ => time_sleep step_duration) ;;
      _ <- update step_increment ;;
      _ <- display ;;
      simulate_loop time_sleep step_duration step_increment n'
  end.

(** [simulate_task]: the result and what the sink holds afterwards; the
    progress bar is local to the call. *)
Definition simulate_task (time_sleep : float -> result unit)
    (total_steps : Z) (step_duration : float) (step_increment : Z)
    (out : list event) : result unit * list event :=
  match __init__ (Some total_steps) (with_bar_length defaults 50) with
  | Raise e => (Raise e, out)
  | Ok progress_bar =>
      match range_length 0 total_steps step_increment with
      | Raise e => (Raise e, out)
      | Ok n =>
          let (r, w) :=
            simulate_loop time_sleep step_duration step_increment n
              (progress_bar, out) in
          (r, snd w)
      end
  end.

(** The literal [0.1]: the double nearest to one tenth. *)
Definition one_tenth : float := float_of (true_divide 1 10).

Definition main (time_sleep : float -> result unit) (out : list event)
  : result unit * list event :=
  simulate_task time_sleep 10000000 one_tenth 4096 out.

(** ** Notions used by the statements about rendering *)

(** The line [display] writes for an object, when it returns normally. *)
Definition display_line (self : ProgressBar) : option str :=
  match display (self, []) with
  | (Ok _, (_, [Write line; Flush])) => Some line
  | _ => None
  end.

(** What the sink receives for a sequence of rendered lines. *)
Definition frames (lines : list str) : list event :=
  flat_map (fun line => [Write line; Flush]) lines.

(** The object at the [k]-th render ([k = 0, 1, ...]) of a loop that starts
    from [self] and alternates [update(step)] and [display]. *)
Definition frame_state (self : ProgressBar) (step : Z) (k : nat)
  : ProgressBar :=
  set_spinner_index
    (set_current_value self
       (Z.min (current_value self + (Z.of_nat k + 1) * step) (total self)))
    ((spinner_index self + Z.of_nat k) mod spinner_len self).

(** The bar segment of a completed task: only fill glyphs. *)
Definition full_bar (self : ProgressBar) : str :=
  color_full self ++ str_repeat (full_char self) (bar_length self)
    ++ reset self ++ color_empty self ++ reset self.


(** The line [display] writes for a completed task whose spinner shows the
    glyph [g]. *)
Definition completed_line (self : ProgressBar) (g : codepoint) : str :=
  CR :: clear_line self
    ++ color_spinner self ++ [g] ++ reset self
    ++ lit " " ++ full_bar self ++ lit " "
    ++ color_complete self ++ lit "Completed!" ++ reset self.

(** An object that [display] can render: progress within range, a bar
    length a float can hold, the spinner position inside [spinner_chars]. *)
Definition renderable (self : ProgressBar) : Prop :=
  0 < total self
  /\ 0 <= current_value self <= total self
  /\ Z.abs (bar_length self) <= 2 ^ 1023
  /\ 0 <= spinner_index self < spinner_len self.

(** * Properties *)

(** ** Rounding to nearest, ties to even *)

Section Rne.

Lemma div_mod_split (a b : Z) :
  0 < b -> a = b * (a / b) + a mod b /\ 0 <= a mod b < b.
Proof.
  intros Hb. split.
  - apply Z.div_mod. lia.
  - apply Z.mod_pos_bound. exact Hb.
Qed.

Lemma even_odd_gap (q1 q2 : Z) :
  Z.even q1 = false -> Z.even q2 = true -> q1 <= q2 -> q1 + 1 <= q2.
Proof.
  intros H1 H2 Hle.
  apply Z.even_spec in H2. destruct H2 as [k2 ->].
  assert (Ho : Z.odd q1 = true) by (rewrite <- Z.negb_even, H1; reflexivity).
  apply Z.odd_spec in Ho. destruct Ho as [k1 ->]. lia.
Qed.

Lemma rne_mono (a1 b1 a2 b2 : Z) :
  0 < b1 -> 0 < b2 -> a1 * b2 <= a2 * b1 -> rne a1 b1 <= rne a2 b2.
Proof.
  intros Hb1 Hb2 Hle. unfold rne.
  destruct (div_mod_split a1 b1 Hb1) as [E1 R1].
  destruct (div_mod_split a2 b2 Hb2) as [E2 R2].
  set (q1 := a1 / b1) in *. set (r1 := a1 mod b1) in *.
  set (q2 := a2 / b2) in *. set (r2 := a2 mod b2) in *.
  assert (HP : 0 < b1 * b2) by nia.
  assert (Hkey : b1 * b2 * (2 * (q1 - q2))
                 <= (2 * r2 - b2) * b1 - (2 * r1 - b1) * b2) by nia.
  destruct (Z.ltb_spec (2 * r1) b1), (Z.ltb_spec (2 * r2) b2);
    try destruct (Z.ltb_spec b1 (2 * r1));
    try destruct (Z.ltb_spec b2 (2 * r2));
    try destruct (Z.even q1) eqn:Ev1;
    try destruct (Z.even q2) eqn:Ev2;
    try (apply even_odd_gap; [assumption | assumption | ]);
    nia.
Qed.

Lemma rne_exact (n b : Z) : 0 < b -> rne (n * b) b = n.
Proof.
  intros Hb. unfold rne.
  rewrite Z.div_mul by lia. rewrite Z.mod_mul by lia.
  destruct (Z.ltb_spec (2 * 0) b); [reflexivity | lia].
Qed.

Lemma rne_ext (a1 b1 a2 b2 : Z) :
  0 < b1 -> 0 < b2 -> a1 * b2 = a2 * b1 -> rne a1 b1 = rne a2 b2.
Proof.
  intros Hb1 Hb2 E. apply Z.le_antisymm; apply rne_mono; lia.
Qed.

Lemma rne_nonneg (a b : Z) : 0 <= a -> 0 < b -> 0 <= rne a b.
Proof.
  intros Ha Hb. rewrite <- (rne_exact 0 b Hb). apply rne_mono; lia.
Qed.
End Rne.

Section Ulp.

Lemma pow2_pos (j : Z) : 0 <= j -> 0 < 2 ^ j.
Proof. intros. apply Z.pow_pos_nonneg; lia. Qed.

Lemma div_cross_mono (a1 b1 a2 b2 : Z) :
  0 < b1 -> 0 < b2 -> a1 * b2 <= a2 * b1 -> a1 / b1 <= a2 / b2.
Proof.
  intros Hb1 Hb2 Hle.
  destruct (div_mod_split a1 b1 Hb1) as [E1 R1].
  destruct (div_mod_split a2 b2 Hb2) as [E2 R2].
  set (q1 := a1 / b1) in *. set (q2 := a2 / b2) in *.
  assert (HP : 0 < b1 * b2) by nia.
  assert (b1 * b2 * (q1 - q2) < b1 * b2 * 1) by nia.
  assert (q1 - q2 < 1) by (apply (Z.mul_lt_mono_pos_l (b1 * b2)); assumption).
  lia.
Qed.

Lemma ulp_exp_nonneg (a b : Z) : 0 <= ulp_exp a b.
Proof. unfold ulp_exp. lia. Qed.

Lemma ulp_exp_mono (a1 b1 a2 b2 : Z) :
  0 < b1 -> 0 < b2 -> a1 * b2 <= a2 * b1 -> ulp_exp a1 b1 <= ulp_exp a2 b2.
Proof.
  intros Hb1 Hb2 Hle. unfold ulp_exp.
  pose proof (Z.log2_le_mono _ _ (div_cross_mono a1 b1 a2 b2 Hb1 Hb2 Hle)).
  lia.
Qed.

(** Below the next binade: [a / b < 2^53 * 2^j]. *)
Lemma ulp_exp_upper (a b : Z) :
  0 <= a -> 0 < b -> a < 2 ^ 53 * 2 ^ ulp_exp a b * b.
Proof.
  intros Ha Hb.
  destruct (div_mod_split a b Hb) as [E R].
  assert (Hq : 0 <= a / b) by (apply Z.div_pos; lia).
  assert (Hlt : a / b < 2 ^ (53 + ulp_exp a b)).
  { destruct (Z.eq_dec (a / b) 0) as [Z0 | NZ].
    - rewrite Z0. apply pow2_pos. pose proof (ulp_exp_nonneg a b). lia.
    - assert (Hs : a / b < 2 ^ Z.succ (Z.log2 (a / b)))
        by (apply Z.log2_spec; lia).
      eapply Z.lt_le_trans; [exact Hs |].
      apply Z.pow_le_mono_r; [lia |]. unfold ulp_exp. lia. }
  rewrite Z.pow_add_r in Hlt by (pose proof (ulp_exp_nonneg a b); lia).
  set (q := a / b) in *. nia.
Qed.

(** In a normal binade above the first: [2^52 * 2^j <= a / b]. *)
Lemma ulp_exp_lower (a b : Z) :
  0 <= a -> 0 < b -> 0 < ulp_exp a b -> 2 ^ 52 * 2 ^ ulp_exp a b * b <= a.
Proof.
  intros Ha Hb Hj.
  destruct (div_mod_split a b Hb) as [E R].
  assert (Hq : 0 <= a / b) by (apply Z.div_pos; lia).
  assert (Hjeq : 52 + ulp_exp a b = Z.log2 (a / b)) by (unfold ulp_exp in *; lia).
  assert (Hpos : 0 < a / b).
  { destruct (Z.eq_dec (a / b) 0) as [Z0 | NZ]; [| lia].
    unfold ulp_exp in Hj. rewrite Z0 in Hj. simpl in Hj. lia. }
  assert (Hs : 2 ^ Z.log2 (a / b) <= a / b) by (apply Z.log2_spec; lia).
  rewrite <- Hjeq, Z.pow_add_r in Hs by lia.
  set (q := a / b) in *. nia.
Qed.
End Ulp.

Section RoundMag.

Lemma round_mag_mono (a1 b1 a2 b2 : Z) :
  0 <= a1 -> 0 < b1 -> 0 < b2 -> a1 * b2 <= a2 * b1 ->
  round_mag a1 b1 <= round_mag a2 b2.
Proof.
  intros Ha1 Hb1 Hb2 Hle.
  assert (Ha2 : 0 <= a2) by nia.
  pose proof (ulp_exp_mono a1 b1 a2 b2 Hb1 Hb2 Hle) as Hj.
  pose proof (ulp_exp_nonneg a1 b1) as Hj1.
  unfold round_mag.
  set (j1 := ulp_exp a1 b1) in *. set (j2 := ulp_exp a2 b2) in *.
  pose proof (pow2_pos j1 Hj1) as P1.
  assert (P2 : 0 < 2 ^ j2) by (apply pow2_pos; lia).
  destruct (Z.eq_dec j1 j2) as [Ej | Nj].
  - rewrite <- Ej. apply Z.mul_le_mono_nonneg_r; [lia |].
    apply rne_mono; nia.
  - (* different binades: a power of two lies in between *)
    assert (Hup : rne a1 (b1 * 2 ^ j1) <= 2 ^ 53).
    { pose proof (ulp_exp_upper a1 b1 Ha1 Hb1) as U. fold j1 in U.
      rewrite <- (rne_exact (2 ^ 53) (b1 * 2 ^ j1)) by nia.
      apply rne_mono; nia. }
    assert (Hlo : 2 ^ 52 <= rne a2 (b2 * 2 ^ j2)).
    { pose proof (ulp_exp_lower a2 b2 Ha2 Hb2) as L. fold j2 in L.
      assert (Hj2 : 0 < j2) by lia. specialize (L Hj2).
      rewrite <- (rne_exact (2 ^ 52) (b2 * 2 ^ j2)) by nia.
      apply rne_mono; nia. }
    assert (Hpow : 2 * 2 ^ j1 <= 2 ^ j2).
    { replace (2 * 2 ^ j1) with (2 ^ (j1 + 1)) by (rewrite Z.pow_add_r; lia).
      apply Z.pow_le_mono_r; lia. }
    set (m1 := rne a1 (b1 * 2 ^ j1)) in *.
    set (m2 := rne a2 (b2 * 2 ^ j2)) in *.
    change (2 ^ 53) with (2 * 2 ^ 52) in Hup.
    assert (0 < 2 ^ 52) by (apply pow2_pos; lia).
    set (c := 2 ^ 52) in *.
    nia.
Qed.

Lemma round_mag_exact (k b : Z) :
  0 < b -> representable k -> round_mag (k * b) b = k.
Proof.
  intros Hb (m & j & Hm & Hj & ->).
  unfold round_mag.
  assert (Ediv : ulp_exp (m * 2 ^ j * b) b = ulp_exp (m * 2 ^ j) 1).
  { unfold ulp_exp. rewrite Z.div_mul by lia. rewrite Z.div_1_r. reflexivity. }
  rewrite Ediv.
  set (k := m * 2 ^ j) in *.
  pose proof (ulp_exp_nonneg k 1) as Hj'.
  pose proof (pow2_pos j Hj) as Pj.
  assert (Hle : ulp_exp k 1 <= j).
  { destruct (Z.eq_dec (ulp_exp k 1) 0) as [-> | NZ]; [lia |].
    assert (Hpos : 0 < ulp_exp k 1) by lia.
    pose proof (ulp_exp_lower k 1 ltac:(subst k; nia) ltac:(lia) Hpos) as L.
    destruct (Z_lt_le_dec j (ulp_exp k 1)) as [Hlt | ]; [exfalso | lia].
    assert (2 * 2 ^ j <= 2 ^ ulp_exp k 1).
    { replace (2 * 2 ^ j) with (2 ^ (j + 1)) by (rewrite Z.pow_add_r; lia).
      apply Z.pow_le_mono_r; lia. }
    change (2 ^ 53) with (2 * 2 ^ 52) in Hm.
    assert (0 < 2 ^ 52) by (apply pow2_pos; lia).
    set (c := 2 ^ 52) in *. subst k. nia. }
  set (j' := ulp_exp k 1) in *.
  assert (Epow : 2 ^ j = 2 ^ (j - j') * 2 ^ j').
  { rewrite <- Z.pow_add_r by lia. f_equal. lia. }
  assert (Ek : k * b = (m * 2 ^ (j - j')) * (b * 2 ^ j')).
  { subst k. rewrite Epow. ring. }
  rewrite Ek, rne_exact by (pose proof (pow2_pos j' Hj'); nia).
  subst k. rewrite Epow. ring.
Qed.

Lemma round_mag_le (a b v : Z) :
  0 <= a -> 0 < b -> representable v -> a <= v * b -> round_mag a b <= v.
Proof.
  intros Ha Hb Hv Hle.
  rewrite <- (round_mag_exact v b Hb Hv).
  apply round_mag_mono; nia.
Qed.

Lemma round_mag_ge (a b v : Z) :
  0 < b -> representable v -> 0 <= v -> v * b <= a -> v <= round_mag a b.
Proof.
  intros Hb Hv Hv0 Hle.
  rewrite <- (round_mag_exact v b Hb Hv) at 1.
  apply round_mag_mono; nia.
Qed.

Lemma round_mag_nonneg (a b : Z) : 0 <= a -> 0 < b -> 0 <= round_mag a b.
Proof.
  intros Ha Hb. unfold round_mag.
  pose proof (ulp_exp_nonneg a b) as Hj.
  pose proof (pow2_pos _ Hj).
  pose proof (rne_nonneg a (b * 2 ^ ulp_exp a b) Ha ltac:(nia)). nia.
Qed.
End RoundMag.

Section FloatFacts.

Lemma one_u_pos : 0 < one_u.
Proof. reflexivity. Qed.

Lemma overflow_u_eq : overflow_u = 2 ^ 1024 * one_u.
Proof. reflexivity. Qed.

Lemma representable_scaled (n : Z) :
  0 <= n <= 2 ^ 53 -> representable (n * one_u).
Proof.
  intros Hn. destruct (Z.eq_dec n (2 ^ 53)) as [-> | Hne].
  - exists (2 ^ 52), 1075. repeat split; try lia; reflexivity.
  - exists n, 1074. repeat split; try lia; reflexivity.
Qed.

Lemma representable_pow2 (j : Z) : 0 <= j -> representable (2 ^ j).
Proof. intros Hj. exists 1, j. repeat split; lia. Qed.

Lemma of_int_exact (n : Z) :
  0 <= n <= 2 ^ 53 -> of_int n = Ok (Finite false (n * one_u)).
Proof.
  intros Hn.
  assert (E : round_mag (n * one_u) 1 = n * one_u).
  { pose proof (round_mag_exact (n * one_u) 1 ltac:(lia)
                  (representable_scaled n Hn)) as E.
    rewrite Z.mul_1_r in E. exact E. }
  unfold of_int. cbv zeta.
  rewrite Z.abs_eq by lia. rewrite E.
  assert (Hlt : n * one_u < overflow_u).
  { rewrite overflow_u_eq. pose proof one_u_pos.
    assert (2 ^ 53 < 2 ^ 1024) by reflexivity. nia. }
  apply Z.ltb_lt in Hlt. rewrite Hlt.
  destruct (Z.ltb_spec n 0); [lia | reflexivity].
Qed.

Lemma of_int_finite (n : Z) :
  Z.abs n <= 2 ^ 1023 ->
  exists k, of_int n = Ok (Finite (n <? 0) k) /\ 0 <= k <= 2 ^ 2097.
Proof.
  intros Hn. unfold of_int.
  set (k := round_mag (Z.abs n * one_u) 1).
  assert (Hk : 0 <= k <= 2 ^ 2097).
  { pose proof one_u_pos. split.
    - apply round_mag_nonneg; nia.
    - apply round_mag_le; try nia.
      + apply representable_pow2. lia.
      + change (2 ^ 2097) with (2 ^ 1023 * one_u). nia. }
  exists k. split; [| exact Hk].
  assert (Hlt : k < overflow_u) by (change overflow_u with (2 * 2 ^ 2097); lia).
  apply Z.ltb_lt in Hlt. rewrite Hlt. reflexivity.
Qed.

Lemma round_finite (neg : bool) (a b v : Z) :
  0 <= a -> 0 < b -> representable v -> v < overflow_u -> a <= v * b ->
  round neg a b = Finite neg (round_mag a b) /\ 0 <= round_mag a b <= v.
Proof.
  intros Ha Hb Hv Hov Hle.
  pose proof (round_mag_le a b v Ha Hb Hv Hle) as Hup.
  pose proof (round_mag_nonneg a b Ha Hb) as Hlo.
  split; [| lia]. unfold round.
  destruct (Z.ltb_spec (round_mag a b) overflow_u); [reflexivity | lia].
Qed.
End FloatFacts.


Section Percentage.

Lemma fdiv_finite (s1 s2 : bool) (k1 k2 : Z) :
  k2 <> 0 ->
  fdiv (Finite s1 k1) (Finite s2 k2)
  = Ok (round (xorb s1 s2) (k1 * one_u) k2).
Proof. intros Hk. destruct k2; [congruence | reflexivity | reflexivity]. Qed.

Lemma ratio_u_range (c t : Z) :
  0 <= c <= t -> 0 < t -> 0 <= ratio_u c t <= one_u.
Proof.
  intros Hc Ht. pose proof one_u_pos. unfold ratio_u. split.
  - apply round_mag_nonneg; nia.
  - apply round_mag_le; try nia.
    change one_u with (2 ^ 1074). apply representable_pow2. lia.
Qed.

Lemma ratio_u_mono (c1 c2 t : Z) :
  0 <= c1 <= c2 -> 0 < t -> ratio_u c1 t <= ratio_u c2 t.
Proof.
  intros Hc Ht. pose proof one_u_pos.
  unfold ratio_u. apply round_mag_mono; try nia.
  apply Z.mul_le_mono_nonneg_r; [lia |].
  apply Z.mul_le_mono_nonneg_r; lia.
Qed.

Lemma representable_100 : representable (100 * one_u).
Proof. apply representable_scaled. split; [lia | discriminate]. Qed.

Lemma hundred_lt_overflow : 100 * one_u < overflow_u.
Proof. reflexivity. Qed.

Lemma percent_u_range (c t : Z) :
  0 <= c <= t -> 0 < t -> 0 <= percent_u c t <= 100 * one_u.
Proof.
  intros Hc Ht. pose proof one_u_pos.
  pose proof (ratio_u_range c t Hc Ht).
  unfold percent_u. split.
  - apply round_mag_nonneg; nia.
  - apply round_mag_le; try nia. apply representable_100.
Qed.

Lemma percent_u_mono (c1 c2 t : Z) :
  0 <= c1 <= c2 -> 0 < t -> percent_u c1 t <= percent_u c2 t.
Proof.
  intros Hc Ht. pose proof one_u_pos.
  pose proof (ratio_u_mono c1 c2 t Hc Ht).
  assert (0 <= ratio_u c1 t)
    by (unfold ratio_u; apply round_mag_nonneg; nia).
  unfold percent_u. apply round_mag_mono; nia.
Qed.

Lemma true_divide_value (c t : Z) :
  0 <= c <= t -> 0 < t ->
  true_divide c t = Ok (Finite false (ratio_u c t)).
Proof.
  intros Hc Ht. pose proof (ratio_u_range c t Hc Ht) as R.
  unfold true_divide.
  destruct (Z.eqb_spec t 0); [lia |].
  destruct (Z.ltb_spec c 0); [lia |].
  destruct (Z.ltb_spec t 0); [lia |].
  rewrite !Z.abs_eq by lia. fold (ratio_u c t). cbv zeta.
  pose proof hundred_lt_overflow. pose proof one_u_pos.
  destruct (Z.ltb_spec (ratio_u c t) overflow_u); [reflexivity | lia].
Qed.

Lemma mul_int_100 (k : Z) :
  0 <= k <= one_u ->
  mul_int (Finite false k) 100
  = Ok (Finite false (round_mag (k * (100 * one_u)) one_u)).
Proof.
  intros Hk. unfold mul_int.
  rewrite of_int_exact by (split; [lia | discriminate]).
  cbn [rbind fmul xorb]. f_equal.
  pose proof one_u_pos.
  apply (round_finite false _ _ (100 * one_u)); try nia.
  - apply representable_100.
  - apply hundred_lt_overflow.
Qed.

Lemma percentage_value (self : ProgressBar) :
  0 < total self -> 0 <= current_value self <= total self ->
  percentage self
  = Ok (Finite false (percent_u (current_value self) (total self))).
Proof.
  intros Ht Hc. unfold percentage.
  rewrite true_divide_value by assumption. cbn [rbind].
  rewrite mul_int_100 by (apply ratio_u_range; assumption).
  reflexivity.
Qed.

Lemma fraction_u_range (p : Z) :
  0 <= p <= 100 * one_u -> 0 <= fraction_u p <= one_u.
Proof.
  intros Hp. pose proof one_u_pos. unfold fraction_u. split.
  - apply round_mag_nonneg; nia.
  - apply round_mag_le; try nia.
    change one_u with (2 ^ 1074) at 1. apply representable_pow2. lia.
Qed.

Lemma div_int_100 (p : Z) :
  0 <= p <= 100 * one_u ->
  div_int (Finite false p) 100 = Ok (Finite false (fraction_u p)).
Proof.
  intros Hp. pose proof one_u_pos. unfold div_int.
  rewrite of_int_exact by (split; [lia | discriminate]).
  cbn [rbind]. rewrite fdiv_finite by lia. cbn [xorb]. f_equal.
  pose proof (fraction_u_range p Hp).
  unfold round. fold (fraction_u p).
  pose proof hundred_lt_overflow.
  destruct (Z.ltb_spec (fraction_u p) overflow_u); [reflexivity | lia].
Qed.
End Percentage.

Section Fill.

Variable self : ProgressBar.
Hypothesis Htotal : 0 < total self.
Hypothesis Hcurrent : 0 <= current_value self <= total self.

Lemma filled_float_bound (s : bool) (kB v : Z) :
  of_int (bar_length self) = Ok (Finite s kB) ->
  0 <= kB <= v -> representable v -> v < overflow_u ->
  filled_float self
  = Ok (Finite s
          (round_mag
             (fraction_u (percent_u (current_value self) (total self))
              * kB) one_u))
  /\ 0 <= round_mag
            (fraction_u (percent_u (current_value self) (total self))
             * kB) one_u <= v.
Proof.
  intros HB HkB Hv Hov. pose proof one_u_pos.
  set (p := percent_u (current_value self) (total self)).
  pose proof (percent_u_range _ _ Hcurrent Htotal) as Hp. fold p in Hp.
  pose proof (fraction_u_range p Hp) as Hd.
  unfold filled_float.
  rewrite percentage_value by assumption. fold p. cbn [rbind].
  rewrite div_int_100 by assumption. cbn [rbind].
  unfold mul_int. rewrite HB. cbn [rbind fmul xorb].
  destruct (round_finite s (fraction_u p * kB) one_u v) as [E R];
    try assumption; try nia.
  rewrite E. split; [reflexivity | exact R].
Qed.

Lemma filled_length_total :
  Z.abs (bar_length self) <= 2 ^ 1023 ->
  exists n, filled_length self = Ok n.
Proof.
  intros Hbl.
  destruct (of_int_finite _ Hbl) as (kB & HB & HkB).
  destruct (filled_float_bound _ kB (2 ^ 2097) HB HkB) as [E _].
  - apply representable_pow2. lia.
  - reflexivity.
  - unfold filled_length. rewrite E. cbn [rbind to_int]. eauto.
Qed.

Lemma filled_length_range :
  0 <= bar_length self <= 2 ^ 53 ->
  exists x n,
    filled_float self = Ok x /\ filled_length self = Ok n
    /\ F64.floor x = Some n /\ 0 <= n <= bar_length self.
Proof.
  intros Hbl. pose proof one_u_pos.
  pose proof (of_int_exact _ Hbl) as HB.
  destruct (filled_float_bound false (bar_length self * one_u)
              (bar_length self * one_u) HB) as [E R].
  - nia.
  - apply representable_scaled. exact Hbl.
  - rewrite overflow_u_eq. assert (2 ^ 53 < 2 ^ 1024) by reflexivity. nia.
  - set (km := round_mag _ one_u) in *.
    exists (Finite false km), (km / one_u).
    unfold filled_length. rewrite E. cbn [rbind to_int F64.floor].
    repeat split.
    + apply Z.div_pos; lia.
    + apply Z.div_le_upper_bound; lia.
Qed.
End Fill.

(** ** The methods, one call at a time *)

Section Methods.

Lemma same_config_refl (a : ProgressBar) : same_config a a.
Proof. destruct a; reflexivity. Qed.

Lemma same_config_set_current (a b : ProgressBar) (v : Z) :
  same_config a b -> same_config a (set_current_value b v).
Proof. unfold same_config. intros ->. reflexivity. Qed.

Lemma same_config_set_spinner (a b : ProgressBar) (i : Z) :
  same_config a b -> same_config a (set_spinner_index b i).
Proof. unfold same_config. intros ->. reflexivity. Qed.

Lemma same_config_fields (a b : ProgressBar) :
  same_config a b ->
  total b = total a /\ bar_length b = bar_length a
  /\ spinner_chars b = spinner_chars a.
Proof. unfold same_config. intros ->. repeat split. Qed.

Lemma update_run (value : Z) (self : ProgressBar) (out : list event) :
  update value (self, out)
  = (Ok tt,
     (set_current_value self
        (Z.min (current_value self + value) (total self)), out)).
Proof. reflexivity. Qed.

Lemma _get_spinner_run (self : ProgressBar) (out : list event) :
  _get_spinner (self, out)
  = match str_index (spinner_chars self) (spinner_index self) with
    | Raise e => (Raise e, (self, out))
    | Ok char =>
        match int_mod (spinner_index self + 1) (spinner_len self) with
        | Raise e => (Raise e, (self, out))
        | Ok i =>
            (Ok (color_spinner self ++ char ++ reset self),
             (set_spinner_index self i, out))
        end
    end.
Proof.
  unfold _get_spinner, bind, get_self, lift, put_self, ret, spinner_len.
  cbn [fst snd].
  destruct (str_index _ _); [| reflexivity].
  destruct (int_mod _ _); reflexivity.
Qed.

Lemma str_index_in_range (s : str) (i : Z) :
  0 <= i < Z.of_nat (List.length s) ->
  exists c, nth_error s (Z.to_nat i) = Some c /\ str_index s i = Ok [c].
Proof.
  intros Hi. unfold str_index.
  destruct (Z.ltb_spec i 0); [lia |].
  destruct (Z.leb_spec 0 i); [| lia].
  destruct (Z.ltb_spec i (Z.of_nat (List.length s))); [| lia].
  cbn [andb].
  destruct (nth_error s (Z.to_nat i)) as [c |] eqn:E.
  - exists c. split; reflexivity.
  - apply nth_error_None in E. lia.
Qed.

Lemma str_index_empty (i : Z) : str_index [] i = Raise IndexError.
Proof.
  unfold str_index. cbn [List.length Z.of_nat].
  destruct (Z.ltb_spec i 0), (Z.leb_spec 0 (i + 0)), (Z.ltb_spec (i + 0) 0);
    cbn [andb]; try reflexivity; try lia;
    destruct (Z.leb_spec 0 i), (Z.ltb_spec i 0); cbn [andb];
    try reflexivity; lia.
Qed.

(** A call of [_get_spinner] on a valid index. *)
Lemma _get_spinner_ok (self : ProgressBar) (out : list event) :
  0 <= spinner_index self < spinner_len self ->
  exists c,
    nth_error (spinner_chars self) (Z.to_nat (spinner_index self)) = Some c
    /\ _get_spinner (self, out)
       = (Ok (color_spinner self ++ [c] ++ reset self),
          (set_spinner_index self
             ((spinner_index self + 1) mod spinner_len self), out)).
Proof.
  intros Hi. rewrite _get_spinner_run.
  destruct (str_index_in_range _ _ Hi) as (c & Hc & E).
  exists c. split; [exact Hc |]. rewrite E. unfold int_mod.
  destruct (Z.eqb_spec (spinner_len self) 0); [lia | reflexivity].
Qed.

Lemma display_run (self : ProgressBar) (out : list event) :
  display (self, out)
  = match status_color self with
    | Raise e => (Raise e, (self, out))
    | Ok color =>
        match status_text self with
        | Raise e => (Raise e, (self, out))
        | Ok text =>
            match _get_spinner (self, out) with
            | (Raise e, w) => (Raise e, w)
            | (Ok spinner, (self', out')) =>
                match _generate_bar self' with
                | Raise e => (Raise e, (self', out'))
                | Ok bar =>
                    (Ok tt,
                     (self',
                      (out' ++ [Write (CR :: clear_line self ++ spinner
                                         ++ lit " " ++ bar ++ lit " "
                                         ++ color ++ text ++ reset self')])
                        ++ [Flush]))
                end
            end
        end
    end.
Proof.
  unfold display, bind, lift, get_self, output_write, output_flush.
  cbn [fst snd].
  destruct (status_color self); [| reflexivity].
  destruct (status_text self); [| reflexivity].
  destruct (_get_spinner (self, out)) as [[spinner | e] [self' out']];
    [| reflexivity].
  cbn [fst snd].
  destruct (_generate_bar self'); reflexivity.
Qed.

End Methods.

Section Invariant.

Lemma spinner_len_nonneg (self : ProgressBar) : 0 <= spinner_len self.
Proof. unfold spinner_len. lia. Qed.

(** [_get_spinner] leaves the object alone or advances the index in range;
    it never writes. *)
Lemma _get_spinner_effect (self : ProgressBar) (out : list event) :
  snd (snd (_get_spinner (self, out))) = out
  /\ (fst (snd (_get_spinner (self, out))) = self
      \/ (0 < spinner_len self
          /\ fst (snd (_get_spinner (self, out)))
             = set_spinner_index self
                 ((spinner_index self + 1) mod spinner_len self))).
Proof.
  rewrite _get_spinner_run.
  destruct (str_index _ _); [| split; [reflexivity | left; reflexivity]].
  unfold int_mod. destruct (Z.eqb_spec (spinner_len self) 0).
  - split; [reflexivity | left; reflexivity].
  - split; [reflexivity | right]. pose proof (spinner_len_nonneg self).
    split; [lia | reflexivity].
Qed.

(** [display] changes the object only through [_get_spinner]. *)
Lemma display_effect (self : ProgressBar) (out : list event) :
  fst (snd (display (self, out))) = self
  \/ fst (snd (display (self, out))) = fst (snd (_get_spinner (self, out))).
Proof.
  rewrite display_run.
  destruct (status_color self); [| left; reflexivity].
  destruct (status_text self); [| left; reflexivity].
  destruct (_get_spinner (self, out)) as [[spinner | e] [self' out']];
    [| right; reflexivity].
  destruct (_generate_bar self'); right; reflexivity.
Qed.

Lemma invariant_get_spinner (self0 self : ProgressBar) (out : list event) :
  invariant self0 self ->
  invariant self0 (fst (snd (_get_spinner (self, out)))).
Proof.
  intros [Hc Hv Hs].
  destruct (_get_spinner_effect self out) as [_ [-> | [Hlen ->]]].
  - constructor; assumption.
  - destruct (same_config_fields _ _ Hc) as (Et & _ & Es).
    constructor.
    + apply same_config_set_spinner. exact Hc.
    + exact Hv.
    + right. cbn [spinner_index set_spinner_index].
      assert (E : spinner_len self = spinner_len self0)
        by (unfold spinner_len; rewrite Es; reflexivity).
      rewrite <- E. apply Z.mod_pos_bound. exact Hlen.
Qed.

Lemma invariant_run_call (self0 : ProgressBar) (c : call) (w : world) :
  invariant self0 (fst w) -> invariant self0 (fst (run_call c w)).
Proof.
  destruct w as [self out]. cbn [fst]. intros Inv.
  destruct c as [v | |]; cbn [run_call].
  - rewrite update_run. cbn [fst snd].
    destruct Inv as [Hc Hv Hs].
    destruct (same_config_fields _ _ Hc) as (Et & _ & _).
    constructor.
    + apply same_config_set_current. exact Hc.
    + cbn [current_value set_current_value]. lia.
    + exact Hs.
  - destruct (display_effect self out) as [-> | ->].
    + exact Inv.
    + apply invariant_get_spinner. exact Inv.
  - apply invariant_get_spinner. exact Inv.
Qed.

Lemma run_calls_app (cs1 cs2 : list call) (w : world) :
  run_calls (cs1 ++ cs2) w = run_calls cs2 (run_calls cs1 w).
Proof. unfold run_calls. apply fold_left_app. Qed.

Lemma invariant_run_calls (self0 : ProgressBar) (cs : list call) (w : world) :
  invariant self0 (fst w) -> invariant self0 (fst (run_calls cs w)).
Proof.
  revert w. induction cs as [| c cs IH]; intros w Inv; [exact Inv |].
  cbn [run_calls fold_left]. apply IH. apply invariant_run_call. exact Inv.
Qed.

Lemma init_ok (t : Z) (kw : kwargs) (self : ProgressBar) :
  __init__ (Some t) kw = Ok self ->
  0 < t /\ total self = t /\ current_value self = 0
  /\ spinner_index self = 0
  /\ bar_length self = kw_bar_length kw
  /\ spinner_chars self = kw_spinner_chars kw.
Proof.
  unfold __init__, _validate_total.
  destruct (Z.leb_spec t 0); cbn [rbind]; [discriminate |].
  intros [= <-]. cbn. repeat split; try reflexivity; lia.
Qed.

Lemma invariant_init (t : Z) (kw : kwargs) (self : ProgressBar) :
  __init__ (Some t) kw = Ok self -> invariant self self.
Proof.
  intros H. destruct (init_ok _ _ _ H) as (Ht & Et & Ec & Es & _).
  constructor.
  - apply same_config_refl.
  - lia.
  - left. exact Es.
Qed.

(** The value of [current_value] after a call. *)
Lemma current_run_call (c : call) (w : world) :
  current_value (fst (run_call c w))
  = match c with
    | CallUpdate v =>
        Z.min (current_value (fst w) + v) (total (fst w))
    | _ => current_value (fst w)
    end.
Proof.
  destruct w as [self out]. destruct c as [v | |]; cbn [run_call fst].
  - reflexivity.
  - destruct (display_effect self out) as [-> | ->]; [reflexivity |].
    destruct (_get_spinner_effect self out) as [_ [-> | [_ ->]]]; reflexivity.
  - destruct (_get_spinner_effect self out) as [_ [-> | [_ ->]]]; reflexivity.
Qed.

End Invariant.

(** ** Sequences of calls *)

Section Current.

Lemma total_run_calls (self0 : ProgressBar) (cs : list call) (w : world) :
  invariant self0 (fst w) -> total (fst (run_calls cs w)) = total self0.
Proof.
  intros Inv. pose proof (invariant_run_calls self0 cs w Inv) as [Hc _ _].
  apply same_config_fields in Hc. tauto.
Qed.

Lemma current_nonneg_run_calls (self0 : ProgressBar) (cs : list call)
    (w : world) :
  0 < total self0 ->
  invariant self0 (fst w) -> Forall nonneg_call cs ->
  0 <= current_value (fst w) ->
  0 <= current_value (fst (run_calls cs w)).
Proof.
  intros Htotal.
  revert w. induction cs as [| c cs IH]; intros w Inv Hnn H0; [exact H0 |].
  inversion Hnn as [| ? ? Hc Hcs]; subst.
  cbn [run_calls fold_left]. apply IH.
  - apply invariant_run_call. exact Inv.
  - exact Hcs.
  - rewrite current_run_call.
    destruct Inv as [Cfg _ _]. apply same_config_fields in Cfg.
    destruct Cfg as (Et & _). destruct c; cbn in Hc; lia.
Qed.

Lemma current_sum_run_calls (self0 : ProgressBar) (cs : list call)
    (w : world) :
  0 < total self0 ->
  invariant self0 (fst w) -> Forall nonneg_call cs ->
  0 <= current_value (fst w) ->
  current_value (fst (run_calls cs w))
  = Z.min (current_value (fst w) + sum (amounts cs)) (total self0)
  /\ 0 <= sum (amounts cs).
Proof.
  intros Htotal.
  revert w. induction cs as [| c cs IH]; intros w Inv Hnn H0.
  - cbn. destruct Inv as [_ Hle _]. lia.
  - inversion Hnn as [| ? ? Hc Hcs]; subst.
    assert (Inv' : invariant self0 (fst (run_call c w)))
      by (apply invariant_run_call; exact Inv).
    assert (Et : total (fst w) = total self0).
    { destruct Inv as [Cfg _ _]. apply same_config_fields in Cfg. tauto. }
    assert (H0' : 0 <= current_value (fst (run_call c w))).
    { rewrite current_run_call. destruct c; cbn in Hc; lia. }
    destruct (IH (run_call c w) Inv' Hcs H0') as [E S].
    cbn [run_calls fold_left]. fold (run_calls cs (run_call c w)).
    rewrite E, current_run_call.
    destruct c as [v | |]; cbn [amounts sum fold_right] in *;
      fold (sum (amounts cs)) in *; cbn in Hc; lia.
Qed.

Lemma current_mono_run_calls (self0 : ProgressBar) (cs : list call)
    (w : world) :
  invariant self0 (fst w) -> Forall nonneg_call cs ->
  current_value (fst w) <= current_value (fst (run_calls cs w)).
Proof.
  revert w. induction cs as [| c cs IH]; intros w Inv Hnn; [cbn; lia |].
  inversion Hnn as [| ? ? Hc Hcs]; subst.
  cbn [run_calls fold_left]. fold (run_calls cs (run_call c w)).
  eapply Z.le_trans; [| apply IH; [apply invariant_run_call; exact Inv | exact Hcs]].
  rewrite current_run_call.
  destruct Inv as [Cfg Hle _]. apply same_config_fields in Cfg.
  destruct Cfg as (Et & _). destruct c; cbn in Hc; lia.
Qed.

End Current.

(** C2.  [update(amount)], for any integer [amount] and any state (so in
    particular for [current_value] in [[0, total]]): the call returns
    normally, [current_value] becomes [min(current_value + amount, total)],
    every other field and the sink are unchanged, and an over-increment
    leaves [current_value = total]. *)
Theorem update_sets_current (self : ProgressBar) (out : list event)
    (amount : Z) :
  let self' :=
    set_current_value self
      (Z.min (current_value self + amount) (total self)) in
  update amount (self, out) = (Ok tt, (self', out))
  /\ current_value self' = Z.min (current_value self + amount) (total self)
  /\ (total self < current_value self + amount ->
      current_value self' = total self)
  /\ same_config self self'
  /\ spinner_index self' = spinner_index self.
Proof.
  cbv zeta. split; [apply update_run |].
  split; [reflexivity |].
  split; [cbn [current_value set_current_value]; lia |].
  split; [| reflexivity].
  apply same_config_set_current, same_config_refl.
Qed.

(** C3.  The constructor raises [ValueError] exactly when [total] is
    [None] or [total <= 0], and then returns no object; for [total > 0] it
    returns an object with [current_value = 0], [spinner_index = 0], the
    given [total], and [percentage] equal to [+0.0]. *)
Theorem init_validates_total (arg : option Z) (kw : kwargs) :
  ((arg = None \/ exists t, arg = Some t /\ t <= 0)
   <-> exists msg, __init__ arg kw = Raise (ValueError msg))
  /\ (forall t, arg = Some t -> 0 < t ->
      exists self,
        __init__ arg kw = Ok self
        /\ total self = t
        /\ current_value self = 0
        /\ spinner_index self = 0
        /\ percentage self = Ok (Finite false 0)).
Proof.
  split; [split |].
  - intros [-> | (t & -> & Ht)]; unfold __init__, _validate_total.
    + eexists. reflexivity.
    + destruct (Z.leb_spec t 0); [| lia]. eexists. reflexivity.
  - intros (msg & H). destruct arg as [t |]; [right | left; reflexivity].
    exists t. split; [reflexivity |].
    unfold __init__, _validate_total in H.
    destruct (Z.leb_spec t 0); [assumption | discriminate].
  - intros t -> Ht. unfold __init__, _validate_total.
    destruct (Z.leb_spec t 0); [lia |]. cbn [rbind].
    eexists. split; [reflexivity |]. cbn [total current_value spinner_index].
    repeat split.
    rewrite percentage_value by (cbn; lia).
    cbn [total current_value]. do 2 f_equal.
    unfold percent_u, ratio_u.
    assert (E0 : round_mag (0 * one_u) t = 0).
    { change (0 * one_u) with (0 * t).
      apply round_mag_exact; [lia |]. exists 0, 0. lia. }
    rewrite E0. change (0 * (100 * one_u)) with (0 * one_u).
    apply round_mag_exact; [apply one_u_pos |]. exists 0, 0. lia.
Qed.

(** C7.  After a successful construction and any calls whose increments
    are non-negative and sum to [S]: [current_value = min(S, total)];
    [current_value] never decreases along the sequence; once
    [current_value = total] a further non-negative increment leaves it
    there; and [total = 5] with one increment of [100] gives
    [current_value = 5] and [percentage = 100.0]. *)
Theorem increments_saturate (t : Z) (kw : kwargs) (self0 : ProgressBar)
    (out : list event) (cs : list call) :
  __init__ (Some t) kw = Ok self0 ->
  Forall nonneg_call cs ->
  let current cs' := current_value (fst (run_calls cs' (self0, out))) in
  current cs = Z.min (sum (amounts cs)) t
  /\ (forall cs1 cs2, cs = cs1 ++ cs2 -> current cs1 <= current cs)
  /\ (forall v, 0 <= v -> current cs = t ->
      current (cs ++ [CallUpdate v]) = t)
  /\ (forall self5, __init__ (Some 5) defaults = Ok self5 ->
      let self := fst (run_calls [CallUpdate 100] (self5, [])) in
      current_value self = 5
      /\ percentage self = Ok (Finite false (100 * one_u))).
Proof.
  intros Hinit Hnn current.
  pose proof (invariant_init _ _ _ Hinit) as Inv.
  destruct (init_ok _ _ _ Hinit) as (Ht & Et & Ec & _).
  repeat split.
  - unfold current.
    destruct (current_sum_run_calls self0 cs (self0, out)) as [E _];
      try assumption; [lia | cbn; lia |].
    rewrite E. cbn [fst]. rewrite Ec, Et. reflexivity.
  - intros cs1 cs2 ->. unfold current. rewrite run_calls_app.
    apply Forall_app in Hnn. destruct Hnn as [_ H2].
    apply (current_mono_run_calls self0); [| exact H2].
    apply invariant_run_calls. exact Inv.
  - intros v Hv Hsat. unfold current in *. rewrite run_calls_app.
    cbn [run_calls fold_left]. rewrite current_run_call.
    rewrite (total_run_calls self0) by exact Inv. lia.
  - injection H as <-. reflexivity.
  - injection H as <-. vm_compute. reflexivity.
Qed.

(** [total = 10]: increments [4] and [9] around a spinner call. *)
Lemma increments_saturate_witness :
  exists self0,
    __init__ (Some 10) defaults = Ok self0
    /\ Forall nonneg_call [CallUpdate 4; CallGetSpinner; CallUpdate 9]
    /\ current_value
         (fst (run_calls [CallUpdate 4; CallGetSpinner; CallUpdate 9]
                 (self0, [])))
       = Z.min (sum (amounts [CallUpdate 4; CallGetSpinner; CallUpdate 9])) 10.
Proof.
  eexists. split; [reflexivity |].
  assert (Hnn : Forall nonneg_call [CallUpdate 4; CallGetSpinner; CallUpdate 9])
    by (repeat constructor; cbn; lia).
  split; [exact Hnn |].
  exact (proj1 (increments_saturate 10 defaults _ [] _ eq_refl Hnn)).
Defined.

(** C8, the claim as stated fails: [total = 5], then [update(-1)] leaves
    [current_value = -1], below zero. *)
Lemma negative_update_leaves_range :
  exists self0,
    __init__ (Some 5) defaults = Ok self0
    /\ current_value (fst (run_calls [CallUpdate (-1)] (self0, []))) = -1
    /\ ~ (0 <= current_value (fst (run_calls [CallUpdate (-1)] (self0, [])))).
Proof.
  eexists. split; [reflexivity |]. split; [reflexivity |].
  cbn. lia.
Qed.

(** C8, amended.  After a successful construction and any sequence of calls
    (increments with any integer amounts, renders), [current_value] never
    exceeds [total]; it is never negative when every increment amount is
    non-negative. *)
Theorem current_bounded (t : Z) (kw : kwargs) (self0 : ProgressBar)
    (out : list event) (cs : list call) :
  __init__ (Some t) kw = Ok self0 ->
  let self := fst (run_calls cs (self0, out)) in
  total self = t
  /\ current_value self <= t
  /\ (Forall nonneg_call cs -> 0 <= current_value self).
Proof.
  intros Hinit self.
  pose proof (invariant_init _ _ _ Hinit) as Inv.
  destruct (init_ok _ _ _ Hinit) as (Ht & Et & Ec & _).
  pose proof (invariant_run_calls self0 cs (self0, out) Inv) as [Cfg Hle _].
  split; [| split].
  - unfold self. rewrite (total_run_calls self0) by exact Inv. exact Et.
  - unfold self. lia.
  - intros Hnn. apply (current_nonneg_run_calls self0); try assumption.
    + lia.
    + cbn. lia.
Qed.

(** [total = 5]: increments [-3] and [100] around a spinner call. *)
Lemma current_bounded_witness :
  exists self0,
    __init__ (Some 5) defaults = Ok self0
    /\ current_value
         (fst (run_calls [CallUpdate (-3); CallGetSpinner; CallUpdate 100]
                 (self0, []))) <= 5.
Proof.
  eexists. split; [reflexivity |].
  exact (proj1 (proj2 (current_bounded 5 defaults _ []
                         [CallUpdate (-3); CallGetSpinner; CallUpdate 100]
                         eq_refl))).
Defined.

(** ** Rendering *)

Section Status.

Lemma status_of_percentage (self : ProgressBar) (p : float) :
  percentage self = Ok p ->
  status_color self
  = Ok (if ge_int p 100 then color_complete self else color_status self)
  /\ status_text self
     = Ok (if ge_int p 100 then lit "Completed!"
           else format_2f p ++ lit "%").
Proof.
  intros E. unfold status_color, status_text. rewrite E. cbn [rbind].
  split; [reflexivity |]. destruct (ge_int p 100); reflexivity.
Qed.

Lemma percent_not_completed (s : str) : s ++ lit "%" <> lit "Completed!".
Proof.
  intros E. apply (f_equal (@rev codepoint)) in E.
  rewrite rev_app_distr in E. discriminate E.
Qed.

(** The generated bar does not depend on the spinner position. *)
Lemma _generate_bar_spinner (self : ProgressBar) (i : Z) :
  _generate_bar (set_spinner_index self i) = _generate_bar self.
Proof. reflexivity. Qed.

End Status.

Section Display.

Variable self : ProgressBar.
Variable out : list event.
Hypothesis Htotal : 0 < total self.
Hypothesis Hcurrent : 0 <= current_value self <= total self.
Hypothesis Hbar : Z.abs (bar_length self) <= 2 ^ 1023.
Hypothesis Hspin : 0 <= spinner_index self < spinner_len self.

(** [display] on a state that satisfies the hypotheses of this section:
    one write of the composed line, one flush, the spinner advanced. *)
Lemma display_writes :
  exists g N1 N2 p,
    nth_error (spinner_chars self) (Z.to_nat (spinner_index self)) = Some g
    /\ filled_length self = Ok N1
    /\ N1 + N2 = bar_length self
    /\ percentage self = Ok p
    /\ display (self, out)
       = (Ok tt,
          (set_spinner_index self
             ((spinner_index self + 1) mod spinner_len self),
           out ++ [Write
                     (CR :: clear_line self
                        ++ color_spinner self ++ [g] ++ reset self
                        ++ lit " "
                        ++ color_full self
                        ++ str_repeat (full_char self) N1 ++ reset self
                        ++ color_empty self
                        ++ str_repeat (empty_char self) N2 ++ reset self
                        ++ lit " "
                        ++ (if ge_int p 100 then color_complete self
                            else color_status self)
                        ++ (if ge_int p 100 then lit "Completed!"
                            else format_2f p ++ lit "%")
                        ++ reset self);
                   Flush])).
Proof.
  destruct (_get_spinner_ok self out Hspin) as (g & Hg & Esp).
  destruct (filled_length_total self Htotal Hcurrent Hbar) as (N1 & EN).
  pose proof (percentage_value self Htotal Hcurrent) as Ep.
  destruct (status_of_percentage self _ Ep) as [Ec Et].
  exists g, N1, (bar_length self - N1),
    (Finite false (percent_u (current_value self) (total self))).
  split; [exact Hg |]. split; [exact EN |]. split; [lia |].
  split; [exact Ep |].
  rewrite display_run, Ec, Et, Esp, _generate_bar_spinner.
  unfold _generate_bar. rewrite EN. cbn [rbind].
  cbn [reset set_spinner_index].
  rewrite <- !app_assoc. reflexivity.
Qed.

End Display.

Section Reachable.

(** What holds of the object after a successful construction and any calls. *)
Lemma state_after_calls (t : Z) (kw : kwargs) (self0 : ProgressBar)
    (out : list event) (cs : list call) :
  __init__ (Some t) kw = Ok self0 ->
  let self := fst (run_calls cs (self0, out)) in
  0 < total self
  /\ total self = t
  /\ current_value self <= total self
  /\ (Forall nonneg_call cs -> 0 <= current_value self)
  /\ bar_length self = kw_bar_length kw
  /\ spinner_chars self = kw_spinner_chars kw
  /\ (spinner_index self = 0 \/ 0 <= spinner_index self < spinner_len self).
Proof.
  intros Hinit self.
  pose proof (invariant_init _ _ _ Hinit) as Inv.
  destruct (init_ok _ _ _ Hinit) as (Ht & Et & Ec & _ & Eb & Es).
  pose proof (invariant_run_calls self0 cs (self0, out) Inv) as [Cfg Hle Hsp].
  fold self in Cfg, Hle, Hsp.
  destruct (same_config_fields _ _ Cfg) as (Et' & Eb' & Es').
  assert (El : spinner_len self = spinner_len self0)
    by (unfold spinner_len; rewrite Es'; reflexivity).
  repeat split; try lia; try congruence.
  intros Hnn. apply (current_nonneg_run_calls self0); try assumption.
  - lia.
  - cbn. lia.
Qed.

End Reachable.




Section Digits.






End Digits.



(** C5, the claim as stated fails: [total = 4], default [bar_length = 30],
    then [update(-1)]: the float handed to [int] is [-7.5], so
    [filled_length = -7], which is neither its floor [-8] nor in
    [[0, 30]].  Also [ProgressBar(4, bar_length=-1)] is constructed and has
    [filled_length = 0], outside the empty range [[0, -1]]. *)
Lemma filled_length_negative_current :
  exists self0 self1,
    __init__ (Some 4) defaults = Ok self0
    /\ __init__ (Some 4) (with_bar_length defaults (-1)) = Ok self1
    /\ let self := fst (run_calls [CallUpdate (-1)] (self0, [])) in
       current_value self = -1
       /\ bar_length self = 30
       /\ filled_length self = Ok (-7)
       /\ filled_float self = Ok (Finite true (15 * 2 ^ 1073))
       /\ F64.floor (Finite true (15 * 2 ^ 1073)) = Some (-8)
       /\ ~ (0 <= -7 <= 30)
       /\ bar_length self1 = -1
       /\ filled_length self1 = Ok 0
       /\ ~ (0 <= 0 <= -1).
Proof.
  do 2 eexists. split; [reflexivity |]. split; [reflexivity |]. cbv zeta.
  split; [reflexivity |]. split; [reflexivity |].
  split; [vm_compute; reflexivity |].
  split; [vm_compute; reflexivity |].
  split; [vm_compute; reflexivity |].
  split; [lia |].
  split; [reflexivity |].
  split; [vm_compute; reflexivity | lia].
Qed.

(** Beyond [2^53] a [bar_length] need not be a double: [2^53 + 3] is
    converted to [2^53 + 4], so a completed bar gets a [filled_length] above
    [bar_length]. *)
Lemma filled_length_above_bar_length :
  exists self0,
    __init__ (Some 1) (with_bar_length defaults (2 ^ 53 + 3)) = Ok self0
    /\ filled_length (fst (run_calls [CallUpdate 1] (self0, [])))
       = Ok (2 ^ 53 + 4).
Proof.
  eexists. split; [reflexivity |]. vm_compute. reflexivity.
Qed.

(** C5, amended.  After a successful construction with
    [0 <= bar_length <= 2^53] and any calls whose increments are
    non-negative, [filled_length] is the floor of the float
    [percentage / 100 * bar_length] and lies in [[0, bar_length]]; with
    [total = 200], [bar_length = 50] and one increment of [100] it is [25]
    and the status text is ["50.00%"]. *)
Theorem filled_length_in_range (t : Z) (kw : kwargs) (self0 : ProgressBar)
    (out : list event) (cs : list call) :
  __init__ (Some t) kw = Ok self0 ->
  0 <= kw_bar_length kw <= 2 ^ 53 ->
  Forall nonneg_call cs ->
  let self := fst (run_calls cs (self0, out)) in
  (exists x n,
     filled_float self = Ok x /\ filled_length self = Ok n
     /\ F64.floor x = Some n /\ 0 <= n <= bar_length self)
  /\ (forall self200,
      __init__ (Some 200) (with_bar_length defaults 50) = Ok self200 ->
      let s := fst (run_calls [CallUpdate 100] (self200, [])) in
      filled_length s = Ok 25 /\ status_text s = Ok (lit "50.00%")).
Proof.
  intros Hinit Hbar Hnn self. split.
  - destruct (state_after_calls t kw self0 out cs Hinit)
      as (Ht & _ & Hle & H0 & Eb & _).
    fold self in Ht, Hle, H0, Eb.
    apply filled_length_range.
    + exact Ht.
    + split; [apply H0; exact Hnn | exact Hle].
    + rewrite Eb. exact Hbar.
  - intros self200 H. injection H as <-. cbv zeta.
    split; vm_compute; reflexivity.
Qed.

(** [ProgressBar(200, bar_length=50)] after [update(100)]. *)
Lemma filled_length_in_range_witness :
  exists self0 x n,
    __init__ (Some 200) (with_bar_length defaults 50) = Ok self0
    /\ 0 <= 50 <= 2 ^ 53
    /\ Forall nonneg_call [CallUpdate 100]
    /\ let self := fst (run_calls [CallUpdate 100] (self0, [])) in
       filled_float self = Ok x /\ filled_length self = Ok n
       /\ F64.floor x = Some n /\ 0 <= n <= bar_length self.
Proof.
  eexists.
  assert (Hb : 0 <= kw_bar_length (with_bar_length defaults 50) <= 2 ^ 53)
    by (cbn; lia).
  assert (Hnn : Forall nonneg_call [CallUpdate 100])
    by (repeat constructor; cbn; lia).
  destruct (proj1 (filled_length_in_range 200 (with_bar_length defaults 50)
                     _ [] [CallUpdate 100] eq_refl Hb Hnn))
    as (x & n & H).
  exists x, n. split; [reflexivity |]. split; [exact Hb |].
  split; [exact Hnn |]. exact H.
Defined.

Section Spinner.

Variable self0 : ProgressBar.
Hypothesis Hindex : spinner_index self0 = 0.
Hypothesis Hlen : 0 < spinner_len self0.

(** After [k] calls the index is [k mod len] and nothing else changed. *)
Lemma spinner_after (out : list event) (k : nat) :
  run_calls (repeat CallGetSpinner k) (self0, out)
  = (set_spinner_index self0 (Z.of_nat k mod spinner_len self0), out).
Proof.
  induction k as [| k IH].
  - cbn [repeat run_calls fold_left]. rewrite Z.mod_0_l by lia.
    rewrite <- Hindex. destruct self0; reflexivity.
  - replace (S k) with (k + 1)%nat by lia.
    rewrite repeat_app, run_calls_app, IH.
    cbn [repeat run_calls fold_left run_call].
    set (s := set_spinner_index self0 (Z.of_nat k mod spinner_len self0)).
    assert (Hs : 0 <= spinner_index s < spinner_len s)
      by (apply Z.mod_pos_bound; exact Hlen).
    destruct (_get_spinner_ok s out Hs) as (c & _ & E).
    rewrite E. cbn [snd]. unfold s at 1. cbn [set_spinner_index].
    change (spinner_index s) with (Z.of_nat k mod spinner_len self0).
    change (spinner_len s) with (spinner_len self0).
    rewrite Zplus_mod_idemp_l.
    replace (Z.of_nat (k + 1)) with (Z.of_nat k + 1) by lia.
    reflexivity.
Qed.

End Spinner.

(** C6.  After a successful construction with non-empty [spinner_chars],
    the [k]-th call ([k = 0, 1, 2, ...]) of [_get_spinner] selects the glyph
    [spinner_chars[k mod len(spinner_chars)]], returns it between
    [color_spinner] and [reset], and leaves
    [spinner_index = (k + 1) mod len(spinner_chars)]; the call numbered
    [k + len(spinner_chars)] returns the same string as the call [k]. *)
Theorem spinner_cycles (t : Z) (kw : kwargs) (self0 : ProgressBar)
    (out : list event) (k : nat) :
  __init__ (Some t) kw = Ok self0 ->
  kw_spinner_chars kw <> [] ->
  let n := spinner_len self0 in
  let kth j := _get_spinner (run_calls (repeat CallGetSpinner j) (self0, out)) in
  (exists g,
     nth_error (spinner_chars self0) (Z.to_nat (Z.of_nat k mod n)) = Some g
     /\ fst (kth k) = Ok (color_spinner self0 ++ [g] ++ reset self0)
     /\ spinner_index (fst (snd (kth k))) = (Z.of_nat k + 1) mod n
     /\ snd (kth k)
        = (set_spinner_index self0 ((Z.of_nat k + 1) mod n), out))
  /\ fst (kth (k + List.length (spinner_chars self0))%nat) = fst (kth k).
Proof.
  intros Hinit Hne n kth.
  destruct (init_ok _ _ _ Hinit) as (_ & _ & _ & Hidx & _ & Es).
  assert (Hlen : 0 < n).
  { unfold n, spinner_len. rewrite Es.
    destruct (kw_spinner_chars kw); [congruence | cbn [List.length]; lia]. }
  assert (Hk : forall j,
             kth j = _get_spinner
                       (set_spinner_index self0 (Z.of_nat j mod n), out)).
  { intros j. unfold kth. rewrite spinner_after by assumption. reflexivity. }
  split.
  - rewrite Hk.
    set (s := set_spinner_index self0 (Z.of_nat k mod n)).
    assert (Hs : 0 <= spinner_index s < spinner_len s)
      by (apply Z.mod_pos_bound; exact Hlen).
    destruct (_get_spinner_ok s out Hs) as (g & Hg & E).
    exists g. rewrite E. cbn [fst snd].
    change (spinner_index s) with (Z.of_nat k mod n) in *.
    change (spinner_len s) with n.
    rewrite Zplus_mod_idemp_l.
    split; [exact Hg |]. split; [reflexivity |]. split; reflexivity.
  - rewrite !Hk.
    rewrite Nat2Z.inj_add. fold (spinner_len self0). fold n.
    rewrite <- (Z.mul_1_l n) at 1. rewrite Z.mod_add by lia.
    reflexivity.
Qed.

(** The call numbered [13] on the ten default glyphs. *)
Lemma spinner_cycles_witness :
  exists self0 g,
    __init__ (Some 7) defaults = Ok self0
    /\ kw_spinner_chars defaults <> []
    /\ nth_error (spinner_chars self0)
         (Z.to_nat (Z.of_nat 13 mod spinner_len self0)) = Some g
    /\ fst (_get_spinner
              (run_calls (repeat CallGetSpinner 13) (self0, [])))
       = Ok (color_spinner self0 ++ [g] ++ reset self0).
Proof.
  eexists.
  assert (Hne : kw_spinner_chars defaults <> []) by discriminate.
  destruct (proj1 (spinner_cycles 7 defaults _ [] 13 eq_refl Hne))
    as (g & Hg & Hr & _).
  exists g. split; [reflexivity |]. split; [exact Hne |].
  split; [exact Hg | exact Hr].
Defined.

(** Only [total] is validated. *)
Lemma init_succeeds (t : Z) (kw : kwargs) :
  0 < t -> exists self, __init__ (Some t) kw = Ok self.
Proof.
  intros Ht. unfold __init__, _validate_total.
  destruct (Z.leb_spec t 0); [lia |]. cbn [rbind]. eexists. reflexivity.
Qed.

(** C9, the claim as stated fails: [total = 5]; after [update(5)] the
    percentage is [100.0] and the status text is ["Completed!"]; a further
    [update(-1)] decreases [current_value] to [4], the percentage to [80.0],
    and the status text is ["80.00%"] again. *)
Lemma negative_update_reopens :
  exists self0,
    __init__ (Some 5) defaults = Ok self0
    /\ let s1 := fst (run_calls [CallUpdate 5] (self0, [])) in
       let s2 := fst (run_calls [CallUpdate 5; CallUpdate (-1)] (self0, [])) in
       percentage s1 = Ok (Finite false (100 * one_u))
       /\ status_text s1 = Ok (lit "Completed!")
       /\ current_value s1 = 5
       /\ current_value s2 = 4
       /\ percentage s2 = Ok (Finite false (80 * one_u))
       /\ ge_int (Finite false (80 * one_u)) 100 = false
       /\ status_text s2 = Ok (lit "80.00%").
Proof.
  eexists. split; [reflexivity |]. cbv zeta.
  repeat split; vm_compute; reflexivity.
Qed.

(** C9, amended.  After a successful construction, along calls whose
    increments are all non-negative, [current_value] never decreases; so once
    [percentage >= 100] holds it holds in every later state, and the status
    text and colour stay ["Completed!"] and [color_complete]. *)
Theorem completed_is_terminal (t : Z) (kw : kwargs) (self0 : ProgressBar)
    (out : list event) (cs1 cs2 : list call) :
  __init__ (Some t) kw = Ok self0 ->
  Forall nonneg_call cs1 ->
  Forall nonneg_call cs2 ->
  let s1 := fst (run_calls cs1 (self0, out)) in
  let s2 := fst (run_calls (cs1 ++ cs2) (self0, out)) in
  current_value s1 <= current_value s2
  /\ (forall p1,
      percentage s1 = Ok p1 -> ge_int p1 100 = true ->
      exists p2,
        percentage s2 = Ok p2 /\ ge_int p2 100 = true
        /\ status_text s2 = Ok (lit "Completed!")
        /\ status_color s2 = Ok (color_complete s2)).
Proof.
  intros Hinit Hnn1 Hnn2 s1 s2.
  assert (Hnn : Forall nonneg_call (cs1 ++ cs2))
    by (apply Forall_app; split; assumption).
  destruct (state_after_calls t kw self0 out cs1 Hinit)
    as (Ht1 & Et1 & Hle1 & H01 & _).
  destruct (state_after_calls t kw self0 out (cs1 ++ cs2) Hinit)
    as (Ht2 & Et2 & Hle2 & H02 & _).
  fold s1 in Ht1, Et1, Hle1, H01. fold s2 in Ht2, Et2, Hle2, H02.
  specialize (H01 Hnn1). specialize (H02 Hnn).
  assert (Hmono : current_value s1 <= current_value s2).
  { unfold s1, s2. rewrite run_calls_app.
    apply (current_mono_run_calls self0); [| exact Hnn2].
    apply invariant_run_calls. exact (invariant_init _ _ _ Hinit). }
  split; [exact Hmono |].
  intros p1 Ep1 G1.
  rewrite percentage_value in Ep1 by (try assumption; lia).
  injection Ep1 as <-.
  pose proof (percentage_value s2 Ht2 (conj H02 Hle2)) as Ep2.
  assert (G2 : ge_int (Finite false (percent_u (current_value s2) (total s2)))
                 100 = true).
  { cbn [ge_int] in *. apply Z.leb_le in G1. apply Z.leb_le.
    eapply Z.le_trans; [exact G1 |].
    rewrite Et1, Et2. apply percent_u_mono; lia. }
  destruct (status_of_percentage s2 _ Ep2) as [Ec Etx].
  rewrite G2 in Ec, Etx.
  eexists. split; [exact Ep2 |]. split; [exact G2 |].
  split; assumption.
Qed.

(** [total = 5]: [update(5)], then [update(2)] and a spinner call. *)
Lemma completed_is_terminal_witness :
  exists self0,
    __init__ (Some 5) defaults = Ok self0
    /\ Forall nonneg_call [CallUpdate 5]
    /\ Forall nonneg_call [CallUpdate 2; CallGetSpinner]
    /\ current_value (fst (run_calls [CallUpdate 5] (self0, [])))
       <= current_value
            (fst (run_calls ([CallUpdate 5] ++ [CallUpdate 2; CallGetSpinner])
                    (self0, []))).
Proof.
  eexists.
  assert (H1 : Forall nonneg_call [CallUpdate 5])
    by (repeat constructor; cbn; lia).
  assert (H2 : Forall nonneg_call [CallUpdate 2; CallGetSpinner])
    by (repeat constructor; cbn; lia).
  split; [reflexivity |]. split; [exact H1 |]. split; [exact H2 |].
  exact (proj1 (completed_is_terminal 5 defaults _ [] _ _ eq_refl H1 H2)).
Defined.

(** C10.  The constructor validates only [total]: for every [total > 0]
    it succeeds whatever [spinner_chars] and [bar_length] are (empty,
    zero or negative included).  When [spinner_chars] is empty, every later
    call of [display], after any calls, raises and writes nothing; the
    exception is [IndexError], from indexing the empty sequence, whenever
    [percentage] evaluates. *)
Theorem empty_spinner_display_fails (t : Z) (kw : kwargs) :
  0 < t ->
  exists self0,
    __init__ (Some t) kw = Ok self0
    /\ (kw_spinner_chars kw = [] ->
        forall cs out,
          let w := run_calls cs (self0, out) in
          (exists e, display w = (Raise e, w))
          /\ (forall p, percentage (fst w) = Ok p ->
              display w = (Raise IndexError, w))).
Proof.
  intros Ht.
  destruct (init_succeeds t kw Ht) as (self0 & Hinit).
  exists self0. split; [exact Hinit |].
  intros Hempty cs out w.
  destruct (state_after_calls t kw self0 out cs Hinit)
    as (_ & _ & _ & _ & _ & Es & _).
  fold w in Es. rewrite Hempty in Es.
  clearbody w. destruct w as [self o]. cbn [fst] in *.
  assert (Hsp : _get_spinner (self, o) = (Raise IndexError, (self, o))).
  { rewrite _get_spinner_run, Es, str_index_empty. reflexivity. }
  rewrite display_run, Hsp. split.
  - destruct (status_color self); [| eexists; reflexivity].
    destruct (status_text self); eexists; reflexivity.
  - intros p Ep. destruct (status_of_percentage _ _ Ep) as [-> ->].
    reflexivity.
Qed.

(** [ProgressBar(3, spinner_chars='')], [update(1)], then [display]. *)
Lemma empty_spinner_display_fails_witness :
  0 < 3
  /\ exists self0,
       __init__ (Some 3) (with_spinner_chars defaults []) = Ok self0
       /\ display (run_calls [CallUpdate 1] (self0, []))
          = (Raise IndexError, run_calls [CallUpdate 1] (self0, [])).
Proof.
  assert (H3 : 0 < 3) by lia.
  split; [exact H3 |].
  destruct (empty_spinner_display_fails 3 (with_spinner_chars defaults []) H3)
    as (self0 & Hinit & Hfail).
  exists self0. split; [exact Hinit |].
  destruct (Hfail eq_refl [CallUpdate 1] []) as [_ Hidx].
  injection Hinit as <-.
  eapply Hidx. vm_compute. reflexivity.
Defined.

(** ** Agreement with the Standard Library's IEEE-754 specification

    On sample operands, covering exact results, inexact results, ties,
    subnormals, underflow to zero and overflow to infinity, the operations
    of [F64] return what [SpecFloat]'s binary64 operations return. *)

Lemma fmul_agrees_with_SpecFloat :
  Forall (fun xy =>
            to_spec (fmul (fst xy) (snd xy))
            = SpecFloat.SFmul 53 1024 (to_spec (fst xy)) (to_spec (snd xy)))
    sample_pairs.
Proof.
  unfold sample_pairs. cbv zeta.
  repeat (apply Forall_cons; [vm_compute; reflexivity |]).
  apply Forall_nil.
Qed.

Lemma fdiv_agrees_with_SpecFloat :
  Forall (fun xy =>
            match fdiv (fst xy) (snd xy) with
            | Ok z =>
                to_spec z
                = SpecFloat.SFdiv 53 1024 (to_spec (fst xy))
                    (to_spec (snd xy))
            | Raise _ => exists neg, snd xy = Finite neg 0
            end)
    sample_pairs.
Proof.
  unfold sample_pairs. cbv zeta.
  repeat (apply Forall_cons;
          [vm_compute; first [reflexivity | eexists; reflexivity] |]).
  apply Forall_nil.
Qed.

Lemma true_divide_agrees_with_SpecFloat :
  Forall (fun ab =>
            match true_divide (fst ab) (snd ab),
                  of_int (fst ab), of_int (snd ab) with
            | Ok z, Ok x, Ok y =>
                to_spec z = SpecFloat.SFdiv 53 1024 (to_spec x) (to_spec y)
            | _, _, _ => False
            end)
    [(1, 3); (2, 3); (1, 7); (29, 100); (4096, 10000000); (-1, 4);
     (5, 5); (0, 9); (9007199254740991, 9007199254740992)].
Proof.
  repeat (apply Forall_cons; [vm_compute; reflexivity |]).
  apply Forall_nil.
Qed.

(** * Further properties of the class and of the driver *)

(** ** Exact values at the two ends of the progress range *)

Section Endpoints.


Lemma representable_one : representable one_u.
Proof. change one_u with (2 ^ 1074). apply representable_pow2. lia. Qed.




Lemma ratio_u_full (t : Z) : 0 < t -> ratio_u t t = one_u.
Proof.
  intros Ht. unfold ratio_u. rewrite Z.mul_comm.
  apply round_mag_exact; [exact Ht | apply representable_one].
Qed.

Lemma percent_u_full (t : Z) : 0 < t -> percent_u t t = 100 * one_u.
Proof.
  intros Ht. unfold percent_u. rewrite ratio_u_full by exact Ht.
  rewrite Z.mul_comm.
  apply round_mag_exact; [apply one_u_pos | apply representable_100].
Qed.

Lemma fraction_u_full : fraction_u (100 * one_u) = one_u.
Proof.
  unfold fraction_u. rewrite Z.mul_comm.
  apply round_mag_exact; [reflexivity | apply representable_one].
Qed.

(** Just below completion the quotient is at most the double before
    [1.0], and one hundred times that double rounds below [100.0]. *)
Lemma ratio_u_below_one (c t : Z) :
  0 <= c < t -> t <= 2 ^ 53 -> ratio_u c t <= (2 ^ 53 - 1) * 2 ^ 1021.
Proof.
  intros Hc Ht. unfold ratio_u.
  pose proof one_u_pos.
  apply round_mag_le; try nia.
  - exists (2 ^ 53 - 1), 1021. lia.
  - change one_u with (2 ^ 53 * 2 ^ 1021).
    assert (HP : 0 < 2 ^ 1021) by reflexivity.
    set (P := 2 ^ 1021) in *. set (B := 2 ^ 53) in *.
    assert (HB : 0 < B) by reflexivity.
    assert (c * B <= (B - 1) * t) by nia.
    nia.
Qed.

Lemma percent_u_below_full (c t : Z) :
  0 <= c < t -> t <= 2 ^ 53 -> percent_u c t < 100 * one_u.
Proof.
  intros Hc Ht.
  pose proof (ratio_u_below_one c t Hc Ht) as Hq.
  assert (H0 : 0 <= ratio_u c t).
  { apply ratio_u_range; lia. }
  assert (Hv : round_mag ((2 ^ 53 - 1) * 2 ^ 1021 * (100 * one_u)) one_u
               < 100 * one_u) by (vm_compute; reflexivity).
  eapply Z.le_lt_trans; [| exact Hv].
  unfold percent_u. pose proof one_u_pos.
  apply round_mag_mono; nia.
Qed.

Lemma fraction_u_mono (p1 p2 : Z) :
  0 <= p1 <= p2 -> fraction_u p1 <= fraction_u p2.
Proof.
  intros Hp. pose proof one_u_pos. unfold fraction_u.
  apply round_mag_mono; nia.
Qed.

End Endpoints.

(** ** Properties of [percentage], [_generate_bar] and [display] *)

(** The float handed to [int] and the filled length, for
    [0 <= bar_length <= 2^53]. *)
Lemma filled_length_value (self : ProgressBar) :
  0 < total self -> 0 <= current_value self <= total self ->
  0 <= bar_length self <= 2 ^ 53 ->
  filled_length self
  = Ok (round_mag
          (fraction_u (percent_u (current_value self) (total self))
           * (bar_length self * one_u)) one_u / one_u).
Proof.
  intros Ht Hc Hb. pose proof one_u_pos.
  destruct (filled_float_bound self Ht Hc false (bar_length self * one_u)
              (bar_length self * one_u)) as [E _].
  - apply of_int_exact. exact Hb.
  - nia.
  - apply representable_scaled. exact Hb.
  - rewrite overflow_u_eq. assert (2 ^ 53 < 2 ^ 1024) by reflexivity. nia.
  - unfold filled_length. rewrite E. reflexivity.
Qed.

(** X1.  After a successful construction and any calls whose increments
    are non-negative, [percentage] evaluates to a finite, non-negative float
    between [0.0] and [100.0]. *)
Theorem percentage_between_0_and_100 (t : Z) (kw : kwargs)
    (self0 : ProgressBar) (out : list event) (cs : list call) :
  __init__ (Some t) kw = Ok self0 ->
  Forall nonneg_call cs ->
  exists k,
    percentage (fst (run_calls cs (self0, out))) = Ok (Finite false k)
    /\ 0 <= k <= 100 * one_u.
Proof.
  intros Hinit Hnn.
  destruct (state_after_calls t kw self0 out cs Hinit)
    as (Ht & _ & Hle & H0 & _).
  specialize (H0 Hnn).
  eexists. split.
  - apply percentage_value; [exact Ht | split; assumption].
  - apply percent_u_range; [split; assumption | exact Ht].
Qed.

Lemma percentage_between_0_and_100_witness :
  exists self0 k,
    __init__ (Some 3) defaults = Ok self0
    /\ Forall nonneg_call [CallUpdate 2]
    /\ percentage (fst (run_calls [CallUpdate 2] (self0, [])))
       = Ok (Finite false k)
    /\ 0 <= k <= 100 * one_u.
Proof.
  eexists.
  assert (Hnn : Forall nonneg_call [CallUpdate 2])
    by (repeat constructor; cbn; lia).
  destruct (percentage_between_0_and_100 3 defaults _ [] [CallUpdate 2]
              eq_refl Hnn) as (k & Hk & Hr).
  exists k. split; [reflexivity |]. split; [exact Hnn |].
  split; [exact Hk | exact Hr].
Defined.

Lemma ok_inj {A : Type} (a b : A) : Ok a = Ok b -> a = b.
Proof. intros H. congruence. Qed.

(** X2.  For [total <= 2^53], after a successful construction and any calls
    whose increments are non-negative, [percentage >= 100] holds, and the
    status text is ["Completed!"], exactly when [current_value = total]. *)
Theorem completed_iff_all_steps (t : Z) (kw : kwargs) (self0 : ProgressBar)
    (out : list event) (cs : list call) :
  __init__ (Some t) kw = Ok self0 ->
  t <= 2 ^ 53 ->
  Forall nonneg_call cs ->
  let self := fst (run_calls cs (self0, out)) in
  exists p,
    percentage self = Ok p
    /\ (ge_int p 100 = true <-> current_value self = total self)
    /\ (status_text self = Ok (lit "Completed!")
        <-> current_value self = total self).
Proof.
  intros Hinit Hbig Hnn self.
  destruct (state_after_calls t kw self0 out cs Hinit)
    as (Ht & Et & Hle & H0 & _).
  fold self in Ht, Et, Hle, H0. specialize (H0 Hnn).
  pose proof (percentage_value self Ht (conj H0 Hle)) as Ep.
  destruct (status_of_percentage self _ Ep) as [_ Etx].
  eexists. split; [exact Ep |].
  assert (G : ge_int (Finite false (percent_u (current_value self) (total self)))
                100 = true <-> current_value self = total self).
  { cbn [ge_int]. rewrite Z.leb_le. split.
    - intros Hge.
      destruct (Z.eq_dec (current_value self) (total self)) as [E | NE];
        [exact E | exfalso].
      pose proof (percent_u_below_full (current_value self) (total self)
                    ltac:(lia) ltac:(lia)).
      lia.
    - intros E. rewrite E, percent_u_full by exact Ht. lia. }
  split; [exact G |].
  rewrite Etx.
  destruct (ge_int _ 100) eqn:Ege.
  - split; [intros _; apply G; reflexivity | reflexivity].
  - split.
    + intros E. exfalso. apply ok_inj in E.
      exact (percent_not_completed _ E).
    + intros E. apply G in E. discriminate E.
Qed.

(** [ProgressBar(3)] after [update(3)]. *)
Lemma completed_iff_all_steps_witness :
  exists self0 p,
    __init__ (Some 3) defaults = Ok self0
    /\ 3 <= 2 ^ 53
    /\ Forall nonneg_call [CallUpdate 3]
    /\ percentage (fst (run_calls [CallUpdate 3] (self0, []))) = Ok p
    /\ (ge_int p 100 = true
        <-> current_value (fst (run_calls [CallUpdate 3] (self0, [])))
            = total (fst (run_calls [CallUpdate 3] (self0, [])))).
Proof.
  eexists.
  assert (Hb : 3 <= 2 ^ 53) by lia.
  assert (Hnn : Forall nonneg_call [CallUpdate 3])
    by (repeat constructor; cbn; lia).
  destruct (completed_iff_all_steps 3 defaults _ [] [CallUpdate 3]
              eq_refl Hb Hnn) as (p & Hp & Hg & _).
  exists p. split; [reflexivity |]. split; [exact Hb |].
  split; [exact Hnn |]. split; [exact Hp | exact Hg].
Defined.

(** Above [2^53] the equivalence fails: with [total = 2^60] and
    [current_value = 2^60 - 1] the quotient rounds to [1.0]. *)
Lemma completed_before_all_steps :
  exists self0,
    __init__ (Some (2 ^ 60)) defaults = Ok self0
    /\ let self := fst (run_calls [CallUpdate (2 ^ 60 - 1)] (self0, [])) in
       current_value self = total self - 1
       /\ status_text self = Ok (lit "Completed!").
Proof.
  eexists. split; [reflexivity |]. cbv zeta.
  split; vm_compute; reflexivity.
Qed.


(** A completed object: exact [100.0], a bar of fill glyphs only. *)
Lemma completed_state (self : ProgressBar) :
  0 < total self -> current_value self = total self ->
  0 <= bar_length self <= 2 ^ 53 ->
  percentage self = Ok (Finite false (100 * one_u))
  /\ filled_length self = Ok (bar_length self)
  /\ _generate_bar self = Ok (full_bar self)
  /\ status_text self = Ok (lit "Completed!")
  /\ status_color self = Ok (color_complete self).
Proof.
  intros Ht Ecur Hbar.
  assert (Ep : percentage self = Ok (Finite false (100 * one_u))).
  { rewrite percentage_value by (try assumption; lia).
    rewrite Ecur, percent_u_full by exact Ht. reflexivity. }
  assert (Ef : filled_length self = Ok (bar_length self)).
  { rewrite filled_length_value by (try assumption; lia).
    rewrite Ecur, percent_u_full, fraction_u_full by exact Ht.
    rewrite (Z.mul_comm one_u).
    rewrite round_mag_exact
      by (try apply one_u_pos; apply representable_scaled; lia).
    rewrite Z.div_mul by (pose proof one_u_pos; lia). reflexivity. }
  destruct (status_of_percentage self _ Ep) as [Ec Etx].
  assert (G : ge_int (Finite false (100 * one_u)) 100 = true)
    by (cbn [ge_int]; apply Z.leb_refl).
  rewrite G in Ec, Etx.
  repeat split; try assumption.
  unfold _generate_bar, full_bar. rewrite Ef. cbn [rbind].
  rewrite Z.sub_diag. reflexivity.
Qed.





(** X5.  Progress never goes backwards on screen: after a successful
    construction with [0 <= bar_length <= 2^53], along calls whose
    increments are non-negative, neither [percentage] nor [filled_length]
    of a later state is below that of an earlier one. *)
Theorem progress_never_shrinks (t : Z) (kw : kwargs) (self0 : ProgressBar)
    (out : list event) (cs1 cs2 : list call) :
  __init__ (Some t) kw = Ok self0 ->
  0 <= kw_bar_length kw <= 2 ^ 53 ->
  Forall nonneg_call cs1 ->
  Forall nonneg_call cs2 ->
  let s1 := fst (run_calls cs1 (self0, out)) in
  let s2 := fst (run_calls (cs1 ++ cs2) (self0, out)) in
  exists k1 k2 n1 n2,
    percentage s1 = Ok (Finite false k1)
    /\ percentage s2 = Ok (Finite false k2)
    /\ k1 <= k2
    /\ filled_length s1 = Ok n1
    /\ filled_length s2 = Ok n2
    /\ n1 <= n2.
Proof.
  intros Hinit Hbar Hnn1 Hnn2 s1 s2.
  assert (Hnn : Forall nonneg_call (cs1 ++ cs2))
    by (apply Forall_app; split; assumption).
  destruct (state_after_calls t kw self0 out cs1 Hinit)
    as (Ht1 & Et1 & Hle1 & H01 & Eb1 & _).
  destruct (state_after_calls t kw self0 out (cs1 ++ cs2) Hinit)
    as (Ht2 & Et2 & Hle2 & H02 & Eb2 & _).
  fold s1 in Ht1, Et1, Hle1, H01, Eb1. fold s2 in Ht2, Et2, Hle2, H02, Eb2.
  specialize (H01 Hnn1). specialize (H02 Hnn).
  assert (Hmono : current_value s1 <= current_value s2).
  { unfold s1, s2. rewrite run_calls_app.
    apply (current_mono_run_calls self0); [| exact Hnn2].
    apply invariant_run_calls. exact (invariant_init _ _ _ Hinit). }
  assert (Hp : percent_u (current_value s1) (total s1)
               <= percent_u (current_value s2) (total s2)).
  { rewrite Et1, Et2. apply percent_u_mono; lia. }
  assert (Hp0 : 0 <= percent_u (current_value s1) (total s1)).
  { apply percent_u_range; lia. }
  pose proof (fraction_u_mono _ _ (conj Hp0 Hp)) as Hf.
  assert (Hf0 : 0 <= fraction_u (percent_u (current_value s1) (total s1))).
  { apply fraction_u_range. apply percent_u_range; lia. }
  do 4 eexists.
  split; [apply percentage_value; [exact Ht1 | lia] |].
  split; [apply percentage_value; [exact Ht2 | lia] |].
  split; [exact Hp |].
  split; [apply filled_length_value; [exact Ht1 | lia | lia] |].
  split; [apply filled_length_value; [exact Ht2 | lia | lia] |].
  pose proof one_u_pos.
  apply Z.div_le_mono; [lia |].
  rewrite Eb1, Eb2.
  apply round_mag_mono; try nia.
  apply Z.mul_le_mono_nonneg_r; [lia |].
  apply Z.mul_le_mono_nonneg_r; [nia | exact Hf].
Qed.

(** [ProgressBar(7)]: [update(2)], then [update(3)]. *)
Lemma progress_never_shrinks_witness :
  exists self0 n1 n2,
    __init__ (Some 7) defaults = Ok self0
    /\ 0 <= kw_bar_length defaults <= 2 ^ 53
    /\ Forall nonneg_call [CallUpdate 2]
    /\ Forall nonneg_call [CallUpdate 3]
    /\ filled_length (fst (run_calls [CallUpdate 2] (self0, []))) = Ok n1
    /\ filled_length
         (fst (run_calls ([CallUpdate 2] ++ [CallUpdate 3]) (self0, [])))
       = Ok n2
    /\ n1 <= n2.
Proof.
  eexists.
  assert (Hb : 0 <= kw_bar_length defaults <= 2 ^ 53) by (cbn; lia).
  assert (H1 : Forall nonneg_call [CallUpdate 2])
    by (repeat constructor; cbn; lia).
  assert (H2 : Forall nonneg_call [CallUpdate 3])
    by (repeat constructor; cbn; lia).
  destruct (progress_never_shrinks 7 defaults _ [] _ _ eq_refl Hb H1 H2)
    as (k1 & k2 & n1 & n2 & _ & _ & _ & E1 & E2 & Hle).
  exists n1, n2. split; [reflexivity |]. split; [exact Hb |].
  split; [exact H1 |]. split; [exact H2 |].
  split; [exact E1 |]. split; [exact E2 | exact Hle].
Defined.




(** X7.  [display] is all or nothing on the sink and never touches the
    progress: for every object and sink, a call that returns appends
    exactly one write followed by one flush, a call that raises appends
    nothing, and in both cases [current_value] and every constructor
    argument are unchanged (only [spinner_index] may move). *)
Theorem display_all_or_nothing (self : ProgressBar) (out : list event) :
  let r := display (self, out) in
  same_config self (fst (snd r))
  /\ current_value (fst (snd r)) = current_value self
  /\ match fst r with
     | Ok _ => exists line, snd (snd r) = out ++ [Write line; Flush]
     | Raise _ => snd (snd r) = out
     end.
Proof.
  cbv zeta. rewrite display_run.
  pose proof (_get_spinner_effect self out) as [Eout Eself].
  assert (Hcfg : same_config self (fst (snd (_get_spinner (self, out))))
                 /\ current_value (fst (snd (_get_spinner (self, out))))
                    = current_value self).
  { destruct Eself as [-> | [_ ->]].
    - split; [apply same_config_refl | reflexivity].
    - split; [apply same_config_set_spinner, same_config_refl
             | reflexivity]. }
  destruct (status_color self);
    [| cbn; repeat split; apply same_config_refl].
  destruct (status_text self);
    [| cbn; repeat split; apply same_config_refl].
  destruct (_get_spinner (self, out)) as [[spinner | e] [self' out']];
    cbn [fst snd] in *; subst out'.
  - destruct (_generate_bar self'); cbn [fst snd].
    + split; [tauto |]. split; [tauto |].
      eexists. rewrite <- app_assoc. reflexivity.
    + split; [tauto |]. split; [tauto | reflexivity].
  - split; [tauto |]. split; [tauto | reflexivity].
Qed.

(** X8.  Increments compose: [update(a)] followed by [update(b)] with
    [b >= 0] leaves the object and the sink as [update(a + b)] does, for
    every object and every [a]. *)
Theorem update_twice (self : ProgressBar) (out : list event) (a b : Z) :
  0 <= b ->
  bind (update a) (fun _ => update b) (self, out)
  = update (a + b) (self, out).
Proof.
  intros Hb. unfold bind. rewrite !update_run.
  cbn [set_current_value current_value total].
  unfold set_current_value. cbn.
  do 3 f_equal. lia.
Qed.

(** [ProgressBar(5)]: [update(10)] then [update(2)], against [update(12)]. *)
Lemma update_twice_witness :
  exists self0,
    __init__ (Some 5) defaults = Ok self0
    /\ 0 <= 2
    /\ bind (update 10) (fun _ => update 2) (self0, [])
       = update (10 + 2) (self0, []).
Proof.
  eexists. assert (H2 : 0 <= 2) by lia.
  split; [reflexivity |]. split; [exact H2 |].
  exact (update_twice _ [] 10 2 H2).
Defined.

(** With a negative second increment the order matters: on [total = 5],
    [update(10)] then [update(-1)] leaves [4], [update(9)] leaves [5]. *)
Lemma update_twice_negative :
  exists self0,
    __init__ (Some 5) defaults = Ok self0
    /\ current_value
         (fst (snd (bind (update 10) (fun _ => update (-1)) (self0, []))))
       = 4
    /\ current_value (fst (snd (update (10 + -1) (self0, [])))) = 5.
Proof. eexists. repeat split; reflexivity. Qed.

(** ** Where the float arithmetic gives up *)

Lemma representable_overflow : representable overflow_u.
Proof. change overflow_u with (2 ^ 2098). apply representable_pow2. lia. Qed.

Lemma true_divide_overflow (a b : Z) :
  0 < b -> 2 ^ 1024 * b <= Z.abs a ->
  true_divide a b = Raise OverflowError.
Proof.
  intros Hb Ha. unfold true_divide.
  destruct (Z.eqb_spec b 0); [lia |]. cbv zeta.
  rewrite (Z.abs_eq b) by lia.
  assert (Hk : overflow_u <= round_mag (Z.abs a * one_u) b).
  { apply round_mag_ge; try assumption.
    - apply representable_overflow.
    - discriminate.
    - rewrite overflow_u_eq. pose proof one_u_pos. nia. }
  destruct (Z.ltb_spec (round_mag (Z.abs a * one_u) b) overflow_u);
    [lia | reflexivity].
Qed.

Lemma of_int_overflow (n : Z) :
  2 ^ 1024 <= n -> of_int n = Raise OverflowError.
Proof.
  intros Hn. unfold of_int. cbv zeta.
  assert (Hk : overflow_u <= round_mag (Z.abs n * one_u) 1).
  { apply round_mag_ge; try lia.
    - apply representable_overflow.
    - discriminate.
    - rewrite overflow_u_eq. pose proof one_u_pos. nia. }
  destruct (Z.ltb_spec (round_mag (Z.abs n * one_u) 1) overflow_u);
    [lia | reflexivity].
Qed.

(** X9.  One hugely negative increment breaks rendering: after a
    successful construction, [update(-N)] with [N >= 2^1024 * total] makes
    [percentage] raise [OverflowError], and [display] then raises
    [OverflowError] without writing and without moving the spinner. *)
Theorem huge_negative_update_breaks_display (t : Z) (kw : kwargs)
    (self0 : ProgressBar) (out : list event) (N : Z) :
  __init__ (Some t) kw = Ok self0 ->
  2 ^ 1024 * t <= N ->
  let w := run_calls [CallUpdate (- N)] (self0, out) in
  current_value (fst w) = - N
  /\ percentage (fst w) = Raise OverflowError
  /\ display w = (Raise OverflowError, w).
Proof.
  intros Hinit HN w.
  destruct (init_ok _ _ _ Hinit) as (Ht & Et & Ec & _).
  assert (Ecur : current_value (fst w) = - N).
  { unfold w. cbn [run_calls fold_left run_call].
    rewrite update_run. cbn [fst snd current_value set_current_value].
    nia. }
  assert (Etot : total (fst w) = t).
  { unfold w. cbn [run_calls fold_left run_call].
    rewrite update_run. cbn [fst snd total set_current_value]. exact Et. }
  assert (Ep : percentage (fst w) = Raise OverflowError).
  { unfold percentage.
    rewrite true_divide_overflow; [reflexivity | lia |].
    rewrite Ecur, Etot. lia. }
  split; [exact Ecur |]. split; [exact Ep |].
  rewrite (surjective_pairing w) at 1. rewrite display_run.
  unfold status_color. rewrite Ep. cbn [rbind].
  rewrite <- surjective_pairing. reflexivity.
Qed.

(** [ProgressBar(3)], then [update(-(2^1024 * 3))]. *)
Lemma huge_negative_update_breaks_display_witness :
  exists self0,
    __init__ (Some 3) defaults = Ok self0
    /\ 2 ^ 1024 * 3 <= 2 ^ 1024 * 3
    /\ percentage
         (fst (run_calls [CallUpdate (- (2 ^ 1024 * 3))] (self0, [])))
       = Raise OverflowError.
Proof.
  eexists. assert (H : 2 ^ 1024 * 3 <= 2 ^ 1024 * 3) by apply Z.le_refl.
  split; [reflexivity |]. split; [exact H |].
  exact (proj1 (proj2 (huge_negative_update_breaks_display
                         3 defaults _ [] _ eq_refl H))).
Defined.

(** X10.  A [bar_length] of [2^1024] or more passes the constructor but
    breaks every render: after a successful construction with non-empty
    [spinner_chars] and any calls whose increments are non-negative,
    [display] raises [OverflowError] and writes nothing, yet it has already
    advanced [spinner_index]. *)
Theorem huge_bar_length_breaks_display (t : Z) (kw : kwargs)
    (self0 : ProgressBar) (out : list event) (cs : list call) :
  __init__ (Some t) kw = Ok self0 ->
  kw_spinner_chars kw <> [] ->
  2 ^ 1024 <= kw_bar_length kw ->
  Forall nonneg_call cs ->
  let w := run_calls cs (self0, out) in
  display w
  = (Raise OverflowError,
     (set_spinner_index (fst w)
        ((spinner_index (fst w) + 1) mod spinner_len (fst w)),
      snd w)).
Proof.
  intros Hinit Hne Hbar Hnn w.
  destruct (state_after_calls t kw self0 out cs Hinit)
    as (Ht & _ & Hle & H0 & Eb & Es & Hsp).
  fold w in Ht, Hle, H0, Eb, Es, Hsp. specialize (H0 Hnn).
  clearbody w. destruct w as [self o]. cbn [fst snd] in *.
  assert (Hlen : 0 < spinner_len self).
  { unfold spinner_len. rewrite Es.
    destruct (kw_spinner_chars kw); [congruence | cbn [List.length]; lia]. }
  assert (Hidx : 0 <= spinner_index self < spinner_len self)
    by (destruct Hsp as [-> | Hsp]; [lia | exact Hsp]).
  pose proof (percentage_value self Ht (conj H0 Hle)) as Ep.
  destruct (status_of_percentage self _ Ep) as [Ec Etx].
  destruct (_get_spinner_ok self o Hidx) as (g & _ & Esp).
  rewrite display_run, Ec, Etx, Esp, _generate_bar_spinner.
  unfold _generate_bar, filled_length, filled_float.
  rewrite Ep. cbn [rbind].
  rewrite div_int_100 by (apply percent_u_range; [lia | exact Ht]).
  cbn [rbind]. unfold mul_int.
  rewrite of_int_overflow by (rewrite Eb; exact Hbar).
  reflexivity.
Qed.

(** [ProgressBar(3, bar_length=2**1024)], rendered at once. *)
Lemma huge_bar_length_breaks_display_witness :
  exists self0,
    __init__ (Some 3) (with_bar_length defaults (2 ^ 1024)) = Ok self0
    /\ kw_spinner_chars (with_bar_length defaults (2 ^ 1024)) <> []
    /\ 2 ^ 1024 <= kw_bar_length (with_bar_length defaults (2 ^ 1024))
    /\ fst (display (run_calls [] (self0, []))) = Raise OverflowError.
Proof.
  eexists.
  assert (Hne : kw_spinner_chars (with_bar_length defaults (2 ^ 1024)) <> [])
    by discriminate.
  assert (Hb : 2 ^ 1024 <= kw_bar_length (with_bar_length defaults (2 ^ 1024)))
    by apply Z.le_refl.
  split; [reflexivity |]. split; [exact Hne |]. split; [exact Hb |].
  rewrite (huge_bar_length_breaks_display 3 _ _ [] [] eq_refl Hne Hb
             (Forall_nil _)).
  reflexivity.
Defined.

(** ** The driver *)

Section Driver.

Variable time_sleep : float -> result unit.
Variable step_duration : float.
Variable step_increment : Z.

Lemma simulate_loop_S (n : nat) (self : ProgressBar) (out : list event) :
  simulate_loop time_sleep step_duration step_increment (S n) (self, out)
  = match time_sleep step_duration with
    | Raise e => (Raise e, (self, out))
    | Ok _ =>
        match display
                (set_current_value self
                   (Z.min (current_value self + step_increment) (total self)),
                 out) with
        | (Ok _, w) =>
            simulate_loop time_sleep step_duration step_increment n w
        | (Raise e, w) => (Raise e, w)
        end
    end.
Proof.
  cbn [simulate_loop]. unfold bind at 1. unfold lift. cbn [fst].
  destruct (time_sleep step_duration); [| reflexivity].
  unfold bind at 1. rewrite update_run. reflexivity.
Qed.

Lemma frames_cons (line : str) (lines : list str) :
  frames (line :: lines) = [Write line; Flush] ++ frames lines.
Proof. reflexivity. Qed.

(** On a renderable object [display] returns, writes the object's line and
    advances the spinner. *)
Lemma display_renderable (self : ProgressBar) (out : list event) :
  renderable self ->
  exists line,
    display_line self = Some line
    /\ display (self, out)
       = (Ok tt,
          (set_spinner_index self
             ((spinner_index self + 1) mod spinner_len self),
           out ++ [Write line; Flush])).
Proof.
  intros (Ht & Hc & Hb & Hs).
  destruct (display_writes self [] Ht Hc Hb Hs)
    as (g & N1 & N2 & p & Hg & EN & EN2 & Ep & E0).
  destruct (display_writes self out Ht Hc Hb Hs)
    as (g' & N1' & N2' & p' & Hg' & EN' & EN2' & Ep' & E).
  assert (g' = g) by congruence.
  assert (N1' = N1) by congruence.
  assert (p' = p) by congruence.
  subst g' N1' p'. assert (N2' = N2) by lia. subst N2'.
  eexists. split; [| exact E].
  unfold display_line. rewrite E0. reflexivity.
Qed.

Lemma renderable_update (self : ProgressBar) :
  0 <= step_increment -> renderable self ->
  renderable
    (set_current_value self
       (Z.min (current_value self + step_increment) (total self))).
Proof.
  intros Hstep (Ht & Hc & Hb & Hs).
  unfold renderable, spinner_len in *.
  cbn [total current_value bar_length spinner_index spinner_chars
       set_current_value].
  repeat split; try assumption; lia.
Qed.

Lemma renderable_spin (self : ProgressBar) :
  renderable self ->
  renderable
    (set_spinner_index self ((spinner_index self + 1) mod spinner_len self)).
Proof.
  intros (Ht & Hc & Hb & Hs).
  unfold renderable, spinner_len in *.
  cbn [total current_value bar_length spinner_index spinner_chars
       set_spinner_index].
  repeat split; try assumption; try lia; apply Z.mod_pos_bound; lia.
Qed.

Lemma frame_state_0 (self : ProgressBar) :
  renderable self ->
  frame_state self step_increment 0
  = set_current_value self
      (Z.min (current_value self + step_increment) (total self)).
Proof.
  intros (_ & _ & _ & Hs). unfold frame_state.
  cbn [Z.of_nat]. rewrite Z.add_0_r, Z.mod_small by exact Hs.
  rewrite Z.add_0_l, Z.mul_1_l.
  destruct self; reflexivity.
Qed.

Lemma frame_state_shift (self : ProgressBar) (k : nat) :
  0 <= step_increment -> renderable self ->
  frame_state
    (set_spinner_index
       (set_current_value self
          (Z.min (current_value self + step_increment) (total self)))
       ((spinner_index self + 1) mod spinner_len self))
    step_increment k
  = frame_state self step_increment (S k).
Proof.
  intros Hstep (Ht & Hc & Hb & Hs).
  unfold frame_state, spinner_len in *.
  cbn [total current_value bar_length spinner_index spinner_chars
       set_spinner_index set_current_value].
  assert (E1 : Z.min (Z.min (current_value self + step_increment) (total self)
                      + (Z.of_nat k + 1) * step_increment) (total self)
               = Z.min (current_value self
                        + (Z.of_nat (S k) + 1) * step_increment)
                   (total self)) by nia.
  assert (E2 : ((spinner_index self + 1)
                  mod Z.of_nat (List.length (spinner_chars self))
                + Z.of_nat k)
                 mod Z.of_nat (List.length (spinner_chars self))
               = (spinner_index self + Z.of_nat (S k))
                   mod Z.of_nat (List.length (spinner_chars self))).
  { rewrite Zplus_mod_idemp_l. f_equal. lia. }
  rewrite E1, E2. reflexivity.
Qed.

(** The loop from a renderable object: every iteration renders, the [k]-th
    line is the line of [frame_state self step_increment k]. *)
Lemma simulate_loop_run (n : nat) :
  0 <= step_increment -> time_sleep step_duration = Ok tt ->
  forall (self : ProgressBar) (out : list event),
    renderable self ->
    exists lines,
      List.length lines = n
      /\ (forall k, (k < n)%nat ->
            nth_error lines k
            = display_line (frame_state self step_increment k))
      /\ fst (simulate_loop time_sleep step_duration step_increment n
                (self, out)) = Ok tt
      /\ snd (snd (simulate_loop time_sleep step_duration step_increment n
                     (self, out)))
         = out ++ frames lines.
Proof.
  intros Hstep Hsleep. induction n as [| n IH]; intros self out Hr.
  - exists []. split; [reflexivity |]. split; [intros k Hk; lia |].
    split; [reflexivity |]. cbn. rewrite app_nil_r. reflexivity.
  - pose proof (renderable_update self Hstep Hr) as Hr1.
    destruct (display_renderable _ out Hr1) as (line & Hline & Ed).
    pose proof (renderable_spin _ Hr1) as Hr2.
    cbn [spinner_index spinner_len spinner_chars set_current_value] in Ed, Hr2.
    fold (spinner_len self) in Ed, Hr2.
    destruct (IH _ (out ++ [Write line; Flush]) Hr2)
      as (lines & Hlen & Hnth & Hfst & Hsnd).
    exists (line :: lines).
    split; [cbn [List.length]; congruence |].
    split.
    + intros [| k] Hk.
      * cbn [nth_error]. rewrite frame_state_0 by exact Hr.
        symmetry. exact Hline.
      * cbn [nth_error]. rewrite <- frame_state_shift by assumption.
        apply Hnth. lia.
    + rewrite simulate_loop_S, Hsleep, Ed.
      split; [exact Hfst |].
      rewrite Hsnd, frames_cons, <- app_assoc. reflexivity.
Qed.

End Driver.

Section Task.

Variable time_sleep : float -> result unit.
Variable step_duration : float.

(** The progress bar [simulate_task] builds. *)
Lemma simulate_task_init (t : Z) :
  0 < t ->
  exists self0,
    __init__ (Some t) (with_bar_length defaults 50) = Ok self0
    /\ renderable self0
    /\ total self0 = t /\ current_value self0 = 0
    /\ spinner_index self0 = 0 /\ bar_length self0 = 50
    /\ spinner_len self0 = 10.
Proof.
  intros Ht. unfold __init__, _validate_total.
  destruct (Z.leb_spec t 0); [lia |]. cbn [rbind].
  eexists. split; [reflexivity |].
  unfold renderable, spinner_len.
  cbn [total current_value spinner_index bar_length spinner_chars
       with_bar_length defaults kw_bar_length kw_spinner_chars List.length].
  repeat split; first [lia | discriminate].
Qed.

Lemma range_length_pos (t step : Z) :
  0 < t -> 0 < step ->
  range_length 0 t step = Ok (Z.to_nat ((t - 1) / step + 1)).
Proof.
  intros Ht Hs. unfold range_length.
  destruct (Z.eqb_spec step 0); [lia |].
  destruct (Z.ltb_spec 0 step); [| lia].
  destruct (Z.ltb_spec 0 t); [| lia].
  rewrite Z.sub_0_r. reflexivity.
Qed.

Lemma simulate_task_loop (t step : Z) (out : list event)
    (self0 : ProgressBar) :
  0 < t -> 0 < step ->
  __init__ (Some t) (with_bar_length defaults 50) = Ok self0 ->
  simulate_task time_sleep t step_duration step out
  = (fst (simulate_loop time_sleep step_duration step
            (Z.to_nat ((t - 1) / step + 1)) (self0, out)),
     snd (snd (simulate_loop time_sleep step_duration step
                 (Z.to_nat ((t - 1) / step + 1)) (self0, out)))).
Proof.
  intros Ht Hs Hinit. unfold simulate_task.
  rewrite Hinit, range_length_pos by assumption.
  destruct (simulate_loop _ _ _ _ _) as [r w]. reflexivity.
Qed.

(** The line of a completed, renderable object. *)
Lemma display_line_completed (self : ProgressBar) :
  renderable self -> current_value self = total self ->
  0 <= bar_length self <= 2 ^ 53 ->
  exists g,
    nth_error (spinner_chars self) (Z.to_nat (spinner_index self)) = Some g
    /\ display_line self = Some (completed_line self g).
Proof.
  intros (Ht & Hc & Hb & Hs) Ecur Hbar.
  destruct (completed_state self Ht Ecur Hbar) as (Ep' & EN' & _).
  destruct (display_writes self [] Ht Hc Hb Hs)
    as (g & N1 & N2 & p & Hg & EN & EN2 & Ep & E0).
  assert (N1 = bar_length self) by congruence.
  assert (p = Finite false (100 * one_u)) by congruence.
  subst N1 p. assert (N2 = 0) by lia. subst N2.
  exists g. split; [exact Hg |].
  unfold display_line. rewrite E0.
  assert (G : ge_int (Finite false (100 * one_u)) 100 = true)
    by (cbn [ge_int]; apply Z.leb_refl).
  rewrite G. cbn [app]. unfold completed_line, full_bar.
  rewrite <- !app_assoc. reflexivity.
Qed.

(** What [simulate_task] does for positive arguments and a [time.sleep]
    that returns. *)
Lemma simulate_task_run (t step : Z) (out : list event) :
  0 < t -> 0 < step -> time_sleep step_duration = Ok tt ->
  exists self0 lines g,
    __init__ (Some t) (with_bar_length defaults 50) = Ok self0
    /\ simulate_task time_sleep t step_duration step out
       = (Ok tt, out ++ frames lines)
    /\ Z.of_nat (List.length lines) = (t - 1) / step + 1
    /\ (forall k, (k < List.length lines)%nat ->
          nth_error lines k = display_line (frame_state self0 step k))
    /\ nth_error (spinner_chars self0)
         (Z.to_nat (((t - 1) / step) mod spinner_len self0)) = Some g
    /\ nth_error lines (Z.to_nat ((t - 1) / step))
       = Some (completed_line self0 g).
Proof.
  intros Ht Hs Hsleep.
  destruct (simulate_task_init t Ht)
    as (self0 & Hinit & Hr & Et & Ec & Ei & Eb & El).
  assert (Hq : 0 <= (t - 1) / step) by (apply Z.div_pos; lia).
  destruct (simulate_loop_run time_sleep step_duration step
              (Z.to_nat ((t - 1) / step + 1)) ltac:(lia) Hsleep self0 out Hr)
    as (lines & Hlen & Hnth & Hfst & Hsnd).
  set (q := (t - 1) / step) in *.
  set (fs := frame_state self0 step (Z.to_nat q)).
  assert (Hfs : renderable fs /\ current_value fs = total fs
                /\ bar_length fs = 50
                /\ spinner_index fs = q mod spinner_len self0).
  { unfold fs, frame_state, renderable, spinner_len.
    cbn [total current_value bar_length spinner_index spinner_chars
         set_spinner_index set_current_value].
    fold (spinner_len self0). rewrite Et, Ec, Ei, Eb, El.
    rewrite Z2Nat.id by exact Hq. rewrite !Z.add_0_l.
    pose proof (Z.mul_succ_div_gt (t - 1) step Hs) as Hgt. fold q in Hgt.
    pose proof (Z.mod_pos_bound q 10 ltac:(lia)).
    assert (Z.min ((q + 1) * step) t = t) by nia.
    repeat split; try lia. }
  destruct Hfs as (Hrf & Ecf & Ebf & Eif).
  destruct (display_line_completed fs Hrf Ecf ltac:(rewrite Ebf; lia))
    as (g & Hg & Hline).
  exists self0, lines, g.
  split; [exact Hinit |].
  split.
  { rewrite (simulate_task_loop t step out self0) by assumption.
    fold q. rewrite Hfst, Hsnd. reflexivity. }
  split; [rewrite Hlen; lia |].
  split; [rewrite Hlen; exact Hnth |].
  split.
  { rewrite <- Eif. exact Hg. }
  rewrite Hnth by lia. exact Hline.
Qed.

End Task.

Lemma frames_app (l1 l2 : list str) :
  frames (l1 ++ l2) = frames l1 ++ frames l2.
Proof. unfold frames. apply flat_map_app. Qed.

(** X11.  [simulate_task] with positive [total_steps] and [step_increment]
    and a [time.sleep] that returns: the call returns normally and appends
    to the sink one write-and-flush pair per element of
    [range(0, total_steps, step_increment)], that is
    [(total_steps - 1) // step_increment + 1] pairs; the [k]-th line is the
    one [display] writes for the object with
    [current_value = min((k + 1) * step_increment, total_steps)] and the
    spinner at position [k mod len(spinner_chars)]. *)
Theorem simulate_task_frames (time_sleep : float -> result unit)
    (total_steps : Z) (step_duration : float) (step_increment : Z)
    (out : list event) :
  0 < total_steps -> 0 < step_increment ->
  time_sleep step_duration = Ok tt ->
  exists self0 lines,
    __init__ (Some total_steps) (with_bar_length defaults 50) = Ok self0
    /\ simulate_task time_sleep total_steps step_duration step_increment out
       = (Ok tt, out ++ frames lines)
    /\ Z.of_nat (List.length lines)
       = (total_steps - 1) / step_increment + 1
    /\ (forall k, (k < List.length lines)%nat ->
          nth_error lines k
          = display_line (frame_state self0 step_increment k)).
Proof.
  intros Ht Hs Hsleep.
  destruct (simulate_task_run time_sleep step_duration total_steps
              step_increment out Ht Hs Hsleep)
    as (self0 & lines & g & Hinit & Erun & Hlen & Hnth & _).
  exists self0, lines. repeat split; assumption.
Qed.

(** [simulate_task(10, 0.1, 3)]: four frames. *)
Lemma simulate_task_frames_witness :
  0 < 10 /\ 0 < 3
  /\ exists lines,
       simulate_task (fun _ => Ok tt) 10 one_tenth 3 []
       = (Ok tt, [] ++ frames lines)
       /\ Z.of_nat (List.length lines) = 4.
Proof.
  assert (H1 : 0 < 10) by lia. assert (H2 : 0 < 3) by lia.
  split; [exact H1 |]. split; [exact H2 |].
  destruct (simulate_task_frames (fun _ => Ok tt) 10 one_tenth 3 []
              H1 H2 eq_refl) as (self0 & lines & _ & Erun & Hlen & _).
  exists lines. split; [exact Erun | exact Hlen].
Defined.

(** X12.  Under the same conditions the last thing [simulate_task] writes
    is the completed line: a bar of fifty fill glyphs and the status
    ["Completed!"] in [color_complete], whatever [step_increment] is and
    whether or not it divides [total_steps]. *)
Theorem simulate_task_ends_completed (time_sleep : float -> result unit)
    (total_steps : Z) (step_duration : float) (step_increment : Z)
    (out : list event) :
  0 < total_steps -> 0 < step_increment ->
  time_sleep step_duration = Ok tt ->
  exists self0 lines g,
    __init__ (Some total_steps) (with_bar_length defaults 50) = Ok self0
    /\ nth_error (spinner_chars self0)
         (Z.to_nat (((total_steps - 1) / step_increment)
                      mod spinner_len self0)) = Some g
    /\ Z.of_nat (List.length lines) = (total_steps - 1) / step_increment
    /\ simulate_task time_sleep total_steps step_duration step_increment out
       = (Ok tt,
          out ++ frames lines ++ [Write (completed_line self0 g); Flush]).
Proof.
  intros Ht Hs Hsleep.
  destruct (simulate_task_run time_sleep step_duration total_steps
              step_increment out Ht Hs Hsleep)
    as (self0 & lines & g & Hinit & Erun & Hlen & _ & Hg & Hlast).
  destruct (nth_error_split _ _ Hlast) as (l1 & l2 & El & Hl1).
  assert (Hq : 0 <= (total_steps - 1) / step_increment)
    by (apply Z.div_pos; lia).
  assert (l2 = []).
  { rewrite El, length_app in Hlen. cbn [List.length] in Hlen.
    destruct l2; [reflexivity | cbn [List.length] in Hlen; lia]. }
  subst l2.
  exists self0, l1, g.
  split; [exact Hinit |]. split; [exact Hg |].
  split; [rewrite Hl1; apply Z2Nat.id; exact Hq |].
  rewrite Erun, El, frames_app. reflexivity.
Qed.

(** [simulate_task(10, 0.1, 3)]: three frames, then the completed line. *)
Lemma simulate_task_ends_completed_witness :
  0 < 10 /\ 0 < 3
  /\ exists self0 lines g,
       Z.of_nat (List.length lines) = 3
       /\ simulate_task (fun _ => Ok tt) 10 one_tenth 3 []
          = (Ok tt,
             [] ++ frames lines ++ [Write (completed_line self0 g); Flush]).
Proof.
  assert (H1 : 0 < 10) by lia. assert (H2 : 0 < 3) by lia.
  split; [exact H1 |]. split; [exact H2 |].
  destruct (simulate_task_ends_completed (fun _ => Ok tt) 10 one_tenth 3 []
              H1 H2 eq_refl) as (self0 & lines & g & _ & _ & Hlen & Erun).
  exists self0, lines, g. split; [exact Hlen | exact Erun].
Defined.

(** X13.  [simulate_task] with [total_steps <= 0] raises the constructor's
    [ValueError] before anything else: nothing is written, whatever the
    other arguments are (a zero [step_increment] included). *)
Theorem simulate_task_rejects_total (time_sleep : float -> result unit)
    (total_steps : Z) (step_duration : float) (step_increment : Z)
    (out : list event) :
  total_steps <= 0 ->
  simulate_task time_sleep total_steps step_duration step_increment out
  = (Raise (ValueError "Total steps must be specified and greater than 0."),
     out).
Proof.
  intros Ht. unfold simulate_task, __init__, _validate_total.
  destruct (Z.leb_spec total_steps 0); [reflexivity | lia].
Qed.

Lemma simulate_task_rejects_total_witness :
  -2 <= 0
  /\ simulate_task (fun _ => Ok tt) (-2) one_tenth 0 []
     = (Raise (ValueError "Total steps must be specified and greater than 0."),
        []).
Proof.
  assert (H : -2 <= 0) by lia.
  split; [exact H |].
  exact (simulate_task_rejects_total (fun _ => Ok tt) (-2) one_tenth 0 [] H).
Defined.

(** X14.  [simulate_task] with positive [total_steps] and
    [step_increment = 0] raises the [ValueError] of [range] and writes
    nothing. *)
Theorem simulate_task_zero_step (time_sleep : float -> result unit)
    (total_steps : Z) (step_duration : float) (out : list event) :
  0 < total_steps ->
  simulate_task time_sleep total_steps step_duration 0 out
  = (Raise (ValueError "range() arg 3 must not be zero"), out).
Proof.
  intros Ht.
  destruct (simulate_task_init total_steps Ht) as (self0 & Hinit & _).
  unfold simulate_task. rewrite Hinit. reflexivity.
Qed.

Lemma simulate_task_zero_step_witness :
  0 < 5
  /\ simulate_task (fun _ => Ok tt) 5 one_tenth 0 []
     = (Raise (ValueError "range() arg 3 must not be zero"), []).
Proof.
  assert (H : 0 < 5) by lia.
  split; [exact H |].
  exact (simulate_task_zero_step (fun _ => Ok tt) 5 one_tenth [] H).
Defined.

(** X15.  [simulate_task] with positive [total_steps] and a negative
    [step_increment] returns normally without sleeping, updating or
    rendering: the sink is unchanged, whatever [time.sleep] would do. *)
Theorem simulate_task_negative_step (time_sleep : float -> result unit)
    (total_steps : Z) (step_duration : float) (step_increment : Z)
    (out : list event) :
  0 < total_steps -> step_increment < 0 ->
  simulate_task time_sleep total_steps step_duration step_increment out
  = (Ok tt, out).
Proof.
  intros Ht Hs.
  destruct (simulate_task_init total_steps Ht) as (self0 & Hinit & _).
  unfold simulate_task, range_length. rewrite Hinit.
  destruct (Z.eqb_spec step_increment 0); [lia |].
  destruct (Z.ltb_spec 0 step_increment); [lia |].
  destruct (Z.ltb_spec total_steps 0); [lia |].
  reflexivity.
Qed.

Lemma simulate_task_negative_step_witness :
  0 < 5 /\ -1 < 0
  /\ simulate_task (fun _ => Raise (ValueError "sleep")) 5 one_tenth (-1) []
     = (Ok tt, []).
Proof.
  assert (H1 : 0 < 5) by lia. assert (H2 : -1 < 0) by lia.
  split; [exact H1 |]. split; [exact H2 |].
  exact (simulate_task_negative_step _ 5 one_tenth (-1) [] H1 H2).
Defined.

(** X16.  When [time.sleep] raises for the given duration, [simulate_task]
    with positive [total_steps] and [step_increment] raises the same
    exception and has written nothing: the sleep comes before the first
    render. *)
Theorem simulate_task_sleep_raises (time_sleep : float -> result unit)
    (total_steps : Z) (step_duration : float) (step_increment : Z)
    (out : list event) (e : exn) :
  0 < total_steps -> 0 < step_increment ->
  time_sleep step_duration = Raise e ->
  simulate_task time_sleep total_steps step_duration step_increment out
  = (Raise e, out).
Proof.
  intros Ht Hs Hsleep.
  destruct (simulate_task_init total_steps Ht) as (self0 & Hinit & _).
  rewrite (simulate_task_loop time_sleep step_duration total_steps
             step_increment out self0 Ht Hs Hinit).
  assert (Hq : 0 <= (total_steps - 1) / step_increment)
    by (apply Z.div_pos; lia).
  replace (Z.to_nat ((total_steps - 1) / step_increment + 1))
    with (S (Z.to_nat ((total_steps - 1) / step_increment))) by lia.
  rewrite simulate_loop_S, Hsleep. reflexivity.
Qed.

Lemma simulate_task_sleep_raises_witness :
  0 < 5 /\ 0 < 1
  /\ simulate_task (fun _ => Raise (ValueError "sleep length must be non-negative"))
       5 one_tenth 1 []
     = (Raise (ValueError "sleep length must be non-negative"), []).
Proof.
  assert (H1 : 0 < 5) by lia. assert (H2 : 0 < 1) by lia.
  split; [exact H1 |]. split; [exact H2 |].
  exact (simulate_task_sleep_raises _ 5 one_tenth 1 [] _ H1 H2 eq_refl).
Defined.

(** X17.  [main], when [time.sleep(0.1)] returns: it returns normally
    after 2442 write-and-flush pairs, and the last line written is the
    completed line with the second spinner glyph. *)
Theorem main_frames (time_sleep : float -> result unit) (out : list event) :
  time_sleep one_tenth = Ok tt ->
  exists self0 lines,
    __init__ (Some 10000000) (with_bar_length defaults 50) = Ok self0
    /\ Z.of_nat (List.length lines) = 2441
    /\ main time_sleep out
       = (Ok tt,
          out ++ frames lines
            ++ [Write (completed_line self0 0x2819); Flush]).
Proof.
  intros Hsleep.
  assert (Ht : 0 < 10000000) by lia. assert (Hs : 0 < 4096) by lia.
  destruct (simulate_task_run time_sleep one_tenth 10000000 4096 out
              Ht Hs Hsleep)
    as (self0 & lines & g & Hinit & Erun & Hlen & _ & Hg & Hlast).
  destruct (simulate_task_init 10000000 Ht)
    as (self0' & Hinit' & _ & _ & _ & _ & _ & El).
  assert (self0' = self0) by congruence. subst self0'.
  assert (Eq : (10000000 - 1) / 4096 = 2441) by reflexivity.
  rewrite Eq in Hlen, Hg, Hlast. rewrite El in Hg.
  assert (Eg : g = 0x2819).
  { destruct (init_ok _ _ _ Hinit) as (_ & _ & _ & _ & _ & Es).
    rewrite Es in Hg. vm_compute in Hg. congruence. }
  subst g.
  destruct (nth_error_split _ _ Hlast) as (l1 & l2 & Elines & Hl1).
  assert (l2 = []).
  { rewrite Elines, length_app in Hlen. cbn [List.length] in Hlen.
    destruct l2; [reflexivity | cbn [List.length] in Hlen; lia]. }
  subst l2.
  exists self0, l1.
  split; [exact Hinit |].
  split; [rewrite Hl1; reflexivity |].
  unfold main. rewrite Erun, Elines, frames_app. reflexivity.
Qed.

(** [main] with a [time.sleep] that always returns, on an empty sink. *)
Lemma main_frames_witness :
  exists self0 lines,
    Z.of_nat (List.length lines) = 2441
    /\ main (fun _ => Ok tt) []
       = (Ok tt,
          [] ++ frames lines
            ++ [Write (completed_line self0 0x2819); Flush]).
Proof.
  destruct (main_frames (fun _ => Ok tt) [] eq_refl)
    as (self0 & lines & _ & Hlen & Erun).
  exists self0, lines. split; [exact Hlen | exact Erun].
Defined.
